(** * The iframe message protocol of [app/utils/mcp.ts]

    A shallow embedding of the child-side protocol: the Sender
    ([sendMcpMessage]), the Lifecycle Initializer ([useMcpUiInit]) and the
    Render-Data Waiter ([waitForRenderData]), together with the part of the
    browser they run against: [window.parent], [postMessage], the list of
    ['message'] listeners, promises and the console.

    The code is single-threaded and event-driven, so a browser window is a
    record that is threaded through a small state-and-exception monad.
    Closures registered as listeners are stored defunctionalised: the
    variables a [handleMessage] closure captures are the arguments of its
    constructor. *)

From stdpp Require Import base option list gmap strings pretty.
From Stdlib Require Import ZArith.

Open Scope string_scope.
Open Scope list_scope.
Set Warnings "-register-all".

(** ** Values *)

(** The values that travel in a message event (structured-clone data), the
    [Error] objects the code creates and the exceptions the engine raises.
    A number is an integer or [NaN]; the protocol does no arithmetic. *)
Inductive value : Type :=
  | VUndefined
  | VNull
  | VBool (b : bool)
  | VNum (n : Z)
  | VNaN
  | VStr (s : string)
  | VArr (items : list value)
  | VObj (fields : list (string * value))
  | VError (name message : string).

(** An evaluation either completes with a result or throws. *)
Inductive completion (A : Type) : Type :=
  | Normal (a : A)
  | Throw (e : value).
Arguments Normal {A} a.
Arguments Throw {A} e.

Definition TypeError (message : string) : value := VError "TypeError" message.

(** [if (v)]: the falsy values are [undefined], [null], [false], [0], [NaN]
    and the empty string. *)
Definition truthy (v : value) : bool :=
  match v with
  | VUndefined | VNull | VNaN => false
  | VBool b => b
  | VNum n => negb (n =? 0)%Z
  | VStr s => negb (String.eqb s "")
  | VArr _ | VObj _ | VError _ _ => true
  end.

Definition nullish (v : value) : bool :=
  match v with
  | VUndefined | VNull => true
  | _ => false
  end.

Fixpoint own_property (fields : list (string * value)) (k : string) : value :=
  match fields with
  | [] => VUndefined
  | (k', v) :: rest => if String.eqb k' k then v else own_property rest k
  end.

(** [v.k] for the keys the protocol reads ([type], [messageId], [payload],
    [response], [error], [renderData]).  None of them is inherited from a
    built-in prototype, so reading one from a primitive or an array gives
    [undefined]; reading from [undefined] or [null] throws. *)
Definition get_prop (v : value) (k : string) : completion value :=
  match v with
  | VUndefined | VNull =>
      Throw (TypeError ("Cannot read properties of nullish value, reading " +:+ k))
  | VObj fields => Normal (own_property fields k)
  | _ => Normal VUndefined
  end.

(** [v?.k] *)
Definition get_prop_opt (v : value) (k : string) : completion value :=
  if nullish v then Normal VUndefined else get_prop v k.

(** [v !== 'literal'] is [negb (strict_eq_str v "literal")]. *)
Definition strict_eq_str (v : value) (s : string) : bool :=
  match v with
  | VStr t => String.eqb t s
  | _ => false
  end.

(** ** Schemas *)

(** The result object of [schema.safeParse]: [{success: true, data}] or
    [{success: false, error}]. *)
Inductive parse_result : Type :=
  | ParseOk (data : value)
  | ParseErr (error : value).

(** A Zod schema, seen through its [safeParse] method. *)
Definition ZodSchema : Type := value → parse_result.

Definition safeParse (schema : ZodSchema) (v : value) : parse_result := schema v.

(** ** The window *)

(** What [window.parent] evaluates to: [null] (no browsing context), the
    window itself (a top-level window) or another window (an iframe). *)
Inductive parent_ref : Type :=
  | ParentNull
  | ParentSelf
  | ParentOther.

Inductive settlement : Type :=
  | Pending
  | Resolved (v : value)
  | Rejected (reason : value).

(** A promise: its state, and how often its [resolve] or [reject] function
    has been called (only the first call settles it). *)
Record promise : Type := Promise {
  pstate : settlement;
  settle_calls : nat;
}.

(** A [handleMessage] closure.  [pid] names the promise whose executor
    created the closure; it also serves as the identity of the function
    object for [addEventListener] and [removeEventListener]. *)
Inductive handler : Type :=
  | HSender (pid : nat) (messageId : string) (schema : option ZodSchema)
  | HWaiter (pid : nat) (schema : option ZodSchema).

Definition handler_id (h : handler) : nat :=
  match h with
  | HSender pid _ _ => pid
  | HWaiter pid _ => pid
  end.

Record window : Type := Window {
  parent : parent_ref;
  (** the messages given to [window.parent.postMessage(_, '*')], oldest first *)
  posted : list value;
  (** the ['message'] listeners, in registration order *)
  listeners : list handler;
  promises : gmap nat promise;
  next_promise : nat;
  (** [console.log] calls: the text and the logged object *)
  console : list (string * value);
  (** exceptions that escaped a listener and were reported by the browser *)
  uncaught : list value;
  (** [crypto.randomUUID]: the value returned by its n-th call, and the
      number of calls made so far *)
  uuid_source : nat → string;
  uuid_calls : nat;
}.

Definition set_posted (f : list value → list value) (w : window) : window :=
  Window (parent w) (f (posted w)) (listeners w) (promises w) (next_promise w)
         (console w) (uncaught w) (uuid_source w) (uuid_calls w).
Definition set_listeners (f : list handler → list handler) (w : window) : window :=
  Window (parent w) (posted w) (f (listeners w)) (promises w) (next_promise w)
         (console w) (uncaught w) (uuid_source w) (uuid_calls w).
Definition set_promises (f : gmap nat promise → gmap nat promise) (w : window) : window :=
  Window (parent w) (posted w) (listeners w) (f (promises w)) (next_promise w)
         (console w) (uncaught w) (uuid_source w) (uuid_calls w).
Definition set_console (f : list (string * value) → list (string * value))
    (w : window) : window :=
  Window (parent w) (posted w) (listeners w) (promises w) (next_promise w)
         (f (console w)) (uncaught w) (uuid_source w) (uuid_calls w).
Definition set_uncaught (f : list value → list value) (w : window) : window :=
  Window (parent w) (posted w) (listeners w) (promises w) (next_promise w)
         (console w) (f (uncaught w)) (uuid_source w) (uuid_calls w).

(** ** The monad of the embedding *)

Definition js (A : Type) : Type := window → completion A * window.

#[global] Instance js_ret : MRet js := λ A a w, (Normal a, w).
#[global] Instance js_bind : MBind js := λ A B f m w,
  match m w with
  | (Normal a, w') => f a w'
  | (Throw e, w') => (Throw e, w')
  end.

Definition throw {A} (e : value) : js A := λ w, (Throw e, w).

(** Lifts the evaluation of an expression that does not touch the window. *)
Definition eval {A} (c : completion A) : js A := λ w, (c, w).

Definition modify (f : window → window) : js unit := λ w, (Normal (), f w).

Definition exec {A} (m : js A) (w : window) : window := snd (m w).

(** ** Browser primitives *)

(** [crypto.randomUUID()] *)
Definition randomUUID : js string := λ w,
  (Normal (uuid_source w (uuid_calls w)),
   Window (parent w) (posted w) (listeners w) (promises w) (next_promise w)
          (console w) (uncaught w) (uuid_source w) (S (uuid_calls w))).

(** [window.parent] *)
Definition window_parent : js parent_ref := λ w, (Normal (parent w), w).

(** [if (ref)]: a window object is truthy, [null] is not. *)
Definition ref_truthy (r : parent_ref) : bool :=
  match r with
  | ParentNull => false
  | ParentSelf | ParentOther => true
  end.

(** [ref === window] *)
Definition is_window (r : parent_ref) : bool :=
  match r with
  | ParentSelf => true
  | ParentNull | ParentOther => false
  end.

(** [target.postMessage(message, '*')], where [target] is what
    [window.parent] evaluated to.  On [null] the member access throws.
    A message a top-level window posts to itself comes back later as an
    event of this window, like any other inbound event (see [dispatch]). *)
Definition postMessage (target : parent_ref) (message : value) : js unit :=
  match target with
  | ParentNull => throw (TypeError "Cannot read properties of null, reading postMessage")
  | ParentSelf | ParentOther => modify (set_posted (λ l, l ++ [message]))
  end.

Definition registered (id : nat) (w : window) : bool :=
  bool_decide (id ∈ handler_id <$> listeners w).

(** [window.addEventListener('message', h)]: a function that is already
    registered is not registered twice. *)
Definition addEventListener (h : handler) : js unit := λ w,
  if registered (handler_id h) w then (Normal (), w)
  else (Normal (), set_listeners (λ l, l ++ [h]) w).

(** [window.removeEventListener('message', h)] *)
Definition detach (id : nat) : window → window :=
  set_listeners (filter (λ h, handler_id h ≠ id)).

Definition removeEventListener (id : nat) : js unit := modify (detach id).

(** [console.log(text, object)] *)
Definition console_log (text : string) (object : value) : js unit :=
  modify (set_console (λ l, l ++ [(text, object)])).

(** Calling the [resolve] or [reject] function of promise [p]: the first
    call settles the promise, later calls do nothing. *)
Definition settle (s : settlement) (pr : promise) : promise :=
  Promise (match pstate pr with Pending => s | st => st end) (S (settle_calls pr)).

Definition settle_promise (p : nat) (s : settlement) : js unit :=
  modify (set_promises (alter (settle s) p)).

Definition resolve (p : nat) (v : value) : js unit := settle_promise p (Resolved v).

Definition reject (p : nat) (reason : value) : js unit :=
  settle_promise p (Rejected reason).

(** [new Promise(executor)]: the executor runs at once; an exception that
    escapes it rejects the promise. *)
Definition new_Promise (executor : nat → js unit) : js nat := λ w,
  let p := next_promise w in
  let w0 := Window (parent w) (posted w) (listeners w)
                   (<[p := Promise Pending 0]> (promises w)) (S p)
                   (console w) (uncaught w) (uuid_source w) (uuid_calls w) in
  match executor p w0 with
  | (Normal _, w1) => (Normal p, w1)
  | (Throw e, w1) => (Normal p, exec (reject p e) w1)
  end.

(** ** The protocol: [app/utils/mcp.ts] *)

Inductive McpMessageType : Type := tool | prompt | link.

Definition type_name (t : McpMessageType) : string :=
  match t with
  | tool => "tool"
  | prompt => "prompt"
  | link => "link"
  end.

(** [{ type, messageId, payload }] *)
Definition request_envelope (type : McpMessageType) (messageId : string)
    (payload : value) : value :=
  VObj [("type", VStr (type_name type)); ("messageId", VStr messageId);
        ("payload", payload)].

(** [{ type: 'ui-lifecycle-iframe-ready' }] *)
Definition ready_signal : value := VObj [("type", VStr "ui-lifecycle-iframe-ready")].

(** [{ type: 'ui-size-change', payload: { height, width } }] *)
Definition size_signal (height width : Z) : value :=
  VObj [("type", VStr "ui-size-change");
        ("payload", VObj [("height", VNum height); ("width", VNum width)])].

(** [const { a, b } = v]: destructuring [undefined] or [null] throws. *)
Definition destructure2 (v : value) (a b : string) : completion (value * value) :=
  match get_prop v a, get_prop v b with
  | Normal x, Normal y => Normal (x, y)
  | Throw e, _ | _, Throw e => Throw e
  end.

(** The tail shared by both [handleMessage] functions, from [if (error)] on. *)
Definition settle_with (p : nat) (schema : option ZodSchema) (data error : value)
    : js unit :=
  if truthy error then reject p error
  else match schema with
       | None => resolve p data
       | Some schema =>
           match safeParse schema data with
           | ParseErr err => reject p err
           | ParseOk parsed => resolve p parsed
           end
       end.

(** [handleMessage] of [sendMcpMessage]; [p] stands for the captured
    [resolve] and [reject]. *)
Definition handleMessage_send (p : nat) (messageId : string)
    (schema : option ZodSchema) (event_data : value) : js unit :=
  ty ← eval (get_prop event_data "type");
  if negb (strict_eq_str ty "ui-message-response") then mret ()
  else
    mid ← eval (get_prop event_data "messageId");
    if negb (strict_eq_str mid messageId) then mret ()
    else
      removeEventListener p;;
      payload ← eval (get_prop event_data "payload");
      '(response, error) ← eval (destructure2 payload "response" "error");
      settle_with p schema response error.

(** [handleMessage] of [waitForRenderData]. *)
Definition handleMessage_wait (p : nat) (schema : option ZodSchema)
    (event_data : value) : js unit :=
  ty ← eval (get_prop_opt event_data "type");
  if negb (strict_eq_str ty "ui-lifecycle-iframe-render-data") then mret ()
  else
    removeEventListener p;;
    payload ← eval (get_prop event_data "payload");
    '(renderData, error) ← eval (destructure2 payload "renderData" "error");
    settle_with p schema renderData error.

Definition call_handler (h : handler) (event_data : value) : js unit :=
  match h with
  | HSender p messageId schema => handleMessage_send p messageId schema event_data
  | HWaiter p schema => handleMessage_wait p schema event_data
  end.

(** [sendMcpMessage(type, payload, options)], with [schema] the field
    [options.schema]. *)
Definition sendMcpMessage (type : McpMessageType) (payload : value)
    (schema : option ZodSchema) : js nat :=
  messageId ← randomUUID;
  new_Promise (λ p,
    par ← window_parent;
    if negb (ref_truthy par) || is_window par then
      console_log "[MCP] No parent frame available. Would have sent message:"
                  (request_envelope type messageId payload);;
      reject p (VError "Error" "No parent frame available")
    else
      target ← window_parent;
      postMessage target (request_envelope type messageId payload);;
      addEventListener (HSender p messageId schema)).

(** [waitForRenderData(schema)].  The parameter is typed as required, but
    the body still tests [!schema], so it is optional here. *)
Definition waitForRenderData (schema : option ZodSchema) : js nat :=
  new_Promise (λ p,
    par ← window_parent;
    postMessage par ready_signal;;
    addEventListener (HWaiter p schema)).

(** The element a root ref points to, with the two layout properties read. *)
Record element : Type := Element {
  clientHeight : Z;
  clientWidth : Z;
}.

(** The effect of [useMcpUiInit(rootRef)], run by React on mount;
    [rootRef_current] is [rootRef.current]. *)
Definition useMcpUiInit (rootRef_current : option element) : js unit :=
  par ← window_parent;
  postMessage par ready_signal;;
  match rootRef_current with
  | None => mret ()
  | Some root =>
      let height := clientHeight root in
      let width := clientWidth root in
      par ← window_parent;
      postMessage par (size_signal height width)
  end.

(** The earliest variant of the hook takes no ref and measures
    [document.documentElement], which always exists. *)
Record document_element : Type := DocumentElement {
  scrollHeight : Z;
  scrollWidth : Z;
}.

Definition useMcpUiInit_document (documentElement : document_element) : js unit :=
  par ← window_parent;
  postMessage par ready_signal;;
  let height := scrollHeight documentElement in
  let width := scrollWidth documentElement in
  par ← window_parent;
  postMessage par (size_signal height width).

(** ** Event dispatch *)

(** One listener of the dispatch snapshot is invoked if it has not been
    removed meanwhile; an exception it throws is reported and dispatch
    goes on. *)
Definition invoke_listener (event_data : value) (w : window) (h : handler) : window :=
  if registered (handler_id h) w then
    match call_handler h event_data w with
    | (Normal _, w') => w'
    | (Throw e, w') => set_uncaught (λ l, l ++ [e]) w'
    end
  else w.

(** A ['message'] event with [event.data = event_data] arrives. *)
Definition dispatch (event_data : value) (w : window) : window :=
  foldl (invoke_listener event_data) w (listeners w).

(** A sequence of inbound events, delivered in order. *)
Definition deliver (events : list value) (w : window) : window :=
  foldl (λ w d, dispatch d w) w events.

(** A freshly loaded window. *)
Definition fresh_window (par : parent_ref) (uuids : nat → string) : window :=
  Window par [] [] ∅ 0 [] [] uuids 0.

(** ** Events and replies *)

(** [{ type: 'ui-message-response', messageId, payload }] *)
Definition response_envelope (messageId : string) (payload : value) : value :=
  VObj [("type", VStr "ui-message-response"); ("messageId", VStr messageId);
        ("payload", payload)].

(** [{ type: 'ui-lifecycle-iframe-render-data', payload }] *)
Definition render_data_envelope (payload : value) : value :=
  VObj [("type", VStr "ui-lifecycle-iframe-render-data"); ("payload", payload)].

(** The event is a reply to the request [messageId]: its [data.type] is the
    response marker and its [data.messageId] is [messageId]. *)
Definition is_response_for (messageId : string) (event_data : value) : bool :=
  match get_prop event_data "type", get_prop event_data "messageId" with
  | Normal ty, Normal mid =>
      strict_eq_str ty "ui-message-response" && strict_eq_str mid messageId
  | _, _ => false
  end.

(** The event is a render-data push: its [data?.type] is the push marker. *)
Definition is_render_data (event_data : value) : bool :=
  match get_prop_opt event_data "type" with
  | Normal ty => strict_eq_str ty "ui-lifecycle-iframe-render-data"
  | Throw _ => false
  end.

(** [const { <key>, error } = event.data.payload] *)
Definition reply_fields (event_data : value) (key : string)
    : completion (value * value) :=
  match get_prop event_data "payload" with
  | Normal payload => destructure2 payload key "error"
  | Throw e => Throw e
  end.

(** [k in v], for an object [v] *)
Definition has_property (v : value) (k : string) : bool :=
  match v with
  | VObj fields => existsb (λ kv, String.eqb kv.1 k) fields
  | _ => false
  end.

(** How a matching reply without a truthy error settles the promise. *)
Definition settlement_of (schema : option ZodSchema) (data : value) : settlement :=
  match schema with
  | None => Resolved data
  | Some schema =>
      match safeParse schema data with
      | ParseOk parsed => Resolved parsed
      | ParseErr err => Rejected err
      end
  end.

(** ** Sample data *)

(** [z.string()] *)
Definition z_string : ZodSchema := λ v,
  match v with
  | VStr s => ParseOk (VStr s)
  | _ => ParseErr (VError "ZodError" "Expected string")
  end.

(** [z.string().default(d)]: a schema whose parsed value can differ from
    the raw one. *)
Definition z_string_default (d : string) : ZodSchema := λ v,
  match v with
  | VUndefined => ParseOk (VStr d)
  | _ => z_string v
  end.

(** Three distinct results of [crypto.randomUUID]. *)
Definition uuids (n : nat) : string :=
  match n with
  | 0 => "7f0c-a"
  | 1 => "7f0c-b"
  | _ => "7f0c-c"
  end.

(** The request of the journal viewer's delete button, a link request, and
    a window embedded in a host. *)
Definition delete_entry_request : value :=
  VObj [("toolName", VStr "delete_entry"); ("params", VObj [("id", VNum 42)])].


Definition host_window : window := fresh_window ParentOther uuids.

(** ** What a listener can do *)

(** Every run of a [handleMessage] closure is one of four reactions, chosen
    by the event alone. *)
Inductive reaction : Type :=
  | Ignores
  | Faults (e : value)
  | Detaches (e : value)
  | Settles (s : settlement).

Definition react (p : nat) (r : reaction) : js unit :=
  match r with
  | Ignores => mret ()
  | Faults e => throw e
  | Detaches e => removeEventListener p;; throw e
  | Settles s => removeEventListener p;; settle_promise p s
  end.

(** Well-formed windows: the listeners are distinct closures, created by
    executors of promises that already exist.  Every reachable window is
    well formed. *)
Record wf (w : window) : Prop := {
  wf_nodup : NoDup (handler_id <$> listeners w);
  wf_bound : ∀ h, h ∈ listeners w → handler_id h < next_promise w;
}.

(** What can happen to a window: one of the entry points runs, or a
    ['message'] event arrives. *)
Inductive step : window → window → Prop :=
  | step_send type payload schema w :
      step w (exec (sendMcpMessage type payload schema) w)
  | step_wait schema w :
      step w (exec (waitForRenderData schema) w)
  | step_init rootRef_current w :
      step w (exec (useMcpUiInit rootRef_current) w)
  | step_init_document documentElement w :
      step w (exec (useMcpUiInit_document documentElement) w)
  | step_event event_data w :
      step w (dispatch event_data w).

Inductive reachable : window → Prop :=
  | reachable_fresh par uuids : reachable (fresh_window par uuids)
  | reachable_step w w' : reachable w → step w w' → reachable w'.

(** The call whose closure is [h] is pending: the listener is installed
    and neither [resolve] nor [reject] has been called. *)
Record awaiting (h : handler) (w : window) : Prop := {
  awaiting_wf : wf w;
  awaiting_listener : h ∈ listeners w;
  awaiting_pending : promises w !! handler_id h = Some (Promise Pending 0);
}.

(** What a window shows about the call with promise [p]: the promise and
    whether the call's listener is installed. *)
Definition focus (p : nat) (w : window) : option promise * bool :=
  (promises w !! p, registered p w).

(** What a window shows to the outside: posts, console output and the
    constants of the environment. *)
Definition outside (w : window) :=
  (parent w, posted w, console w, next_promise w, uuid_calls w).

(** Listeners are only ever removed, and a listener that is still
    registered under its identity is the same closure. *)
Definition shrinks (w w' : window) : Prop :=
  (∀ h, h ∈ listeners w' → h ∈ listeners w) ∧
  (∀ h, h ∈ listeners w → registered (handler_id h) w' = true → h ∈ listeners w').

(** The settlement a matching reply produces, from [if (error)] on. *)
Definition verdict (schema : option ZodSchema) (data error : value) : settlement :=
  if truthy error then Rejected error else settlement_of schema data.

(** What a matching event leaves of a pending call: the promise, settled
    once by the verdict (or still pending when destructuring the payload
    threw), and no listener. *)
Definition reply_outcome (schema : option ZodSchema) (key : string) (d : value)
    : option promise * bool :=
  match reply_fields d key with
  | Normal (data, error) => (Some (Promise (verdict schema data error) 1), false)
  | Throw _ => (Some (Promise Pending 0), false)
  end.

(** ** An earlier Sender: [sendLinkMcpMessage] *)

(** [handleMessage] of [sendLinkMcpMessage]: the closure of the Sender
    without the schema step. *)
Definition handleMessage_link (p : nat) (messageId : string)
    (event_data : value) : js unit :=
  ty ← eval (get_prop event_data "type");
  if negb (strict_eq_str ty "ui-message-response") then mret ()
  else
    mid ← eval (get_prop event_data "messageId");
    if negb (strict_eq_str mid messageId) then mret ()
    else
      removeEventListener p;;
      payload ← eval (get_prop event_data "payload");
      '(response, error) ← eval (destructure2 payload "response" "error");
      if truthy error then reject p error else resolve p response.

(** [{ url }] *)
Definition link_payload (url : string) : value := VObj [("url", VStr url)].

(** [sendLinkMcpMessage(url)].  It has no check of [window.parent].  Its
    closure is stored as the Sender's closure without a schema, which is
    the same function (lemma [handleMessage_link_is_send]). *)
Definition sendLinkMcpMessage (url : string) : js nat :=
  messageId ← randomUUID;
  new_Promise (λ p,
    par ← window_parent;
    postMessage par (request_envelope link messageId (link_payload url));;
    addEventListener (HSender p messageId None)).

(** ** The callers: journal viewer and entry viewer *)

(** The two callbacks a button can call: [onDeleted()] and
    [showBoundary(err)]. *)
Inductive callback : Type :=
  | OnDeleted
  | ShowBoundary (err : value).

(** [await p]: where the promise stands when the [async] function is
    looked at; the function is suspended while it is pending. *)
Definition awaited (p : nat) (w : window) : settlement :=
  match promises w !! p with
  | Some pr => pstate pr
  | None => Pending
  end.

(** [{ toolName, params: { id } }] *)
Definition tool_call (toolName : string) (id : Z) : value :=
  VObj [("toolName", VStr toolName); ("params", VObj [("id", VNum id)])].

(** [handleDelete] of the journal viewer with tool results, up to its
    [await]: the call of the Sender with [deleteEntrySchema]. *)
Definition handleDelete_send (deleteEntrySchema : ZodSchema) (entry_id : Z) : js nat :=
  sendMcpMessage tool (tool_call "delete_entry" entry_id) (Some deleteEntrySchema).

(** The rest of that [handleDelete], after the [await], inside
    [try]/[catch]: the callbacks it has called when the promise stands at
    [outcome]. *)
Definition handleDelete_resume (outcome : settlement) : list callback :=
  match outcome with
  | Pending => []
  | Rejected err => [ShowBoundary err]
  | Resolved result =>
      match get_prop result "structuredContent" with
      | Throw err => [ShowBoundary err]
      | Normal structuredContent =>
          match get_prop structuredContent "success" with
          | Throw err => [ShowBoundary err]
          | Normal success =>
              if truthy success then [OnDeleted]
              else [ShowBoundary (VError "Error" "Failed to delete entry")]
          end
      end
  end.

(** [handleDelete] of the entry viewer, up to its [await]: nothing
    happens unless [doubleCheck] is set; no schema is given. *)
Definition handleDelete_viewer_send (doubleCheck : bool) (entry_id : Z)
    : js (option nat) :=
  if negb doubleCheck then mret None
  else
    p ← sendMcpMessage tool (tool_call "delete_entry" entry_id) None;
    mret (Some p).

(** The rest of the entry viewer's [handleDelete]: [onDeleted()] follows
    the [await] without a look at the result. *)
Definition handleDelete_viewer_resume (outcome : settlement) : list callback :=
  match outcome with
  | Pending => []
  | Rejected err => [ShowBoundary err]
  | Resolved _ => [OnDeleted]
  end.

(** The journal viewer's state: [deletedEntryIds], and what the error
    boundary of a delete button was given. *)
Record journal : Type := Journal {
  deletedEntryIds : gset Z;
  boundary : list value;
}.

(** [handleEntryDeleted(entryId)]: [new Set([...prev, entryId])] *)
Definition handleEntryDeleted (entryId : Z) (j : journal) : journal :=
  Journal (deletedEntryIds j ∪ {[entryId]}) (boundary j).

(** [deletedEntryIds.has(entry.id)] *)
Definition isDeleted (entry_id : Z) (j : journal) : bool :=
  bool_decide (entry_id ∈ deletedEntryIds j).

(** The callbacks of the delete button of entry [entry_id], where
    [onDeleted] is [() => handleEntryDeleted(entry.id)]. *)
Definition run_callback (entry_id : Z) (j : journal) (c : callback) : journal :=
  match c with
  | OnDeleted => handleEntryDeleted entry_id j
  | ShowBoundary err => Journal (deletedEntryIds j) (boundary j ++ [err])
  end.

Definition run_callbacks (entry_id : Z) (cs : list callback) (j : journal) : journal :=
  foldl (run_callback entry_id) j cs.

(** ** Zod schemas of the callers *)

(** A failed parse gives a [ZodError]; its list of issues is not
    modelled, the message stands for it. *)
Definition zod_invalid (expected : string) : value :=
  VError "ZodError" ("Expected " +:+ expected).

(** [z.boolean()] *)
Definition z_boolean : ZodSchema := λ v,
  match v with
  | VBool b => ParseOk (VBool b)
  | _ => ParseErr (zod_invalid "boolean")
  end.

(** [z.object({ key: inner })] for a required [inner]: the input must be
    an object, [inner] parses its [key], other keys are stripped. *)
Definition z_object1 (key : string) (inner : ZodSchema) : ZodSchema := λ v,
  match v with
  | VObj fields =>
      match safeParse inner (own_property fields key) with
      | ParseOk parsed => ParseOk (VObj [(key, parsed)])
      | ParseErr err => ParseErr err
      end
  | _ => ParseErr (zod_invalid "object")
  end.

(** [z.object({ structuredContent: z.object({ success: z.boolean() }) })] *)
Definition deleteEntrySchema : ZodSchema :=
  z_object1 "structuredContent" (z_object1 "success" z_boolean).

(** ** The agent and its tools ([worker/mcp]) *)

(** The double-quote character, as template strings have it. *)
Definition dquote : string :=
  String (Ascii.Ascii false true false false false true false false) EmptyString.

(** [new InvariantError(message)], thrown by [invariant]. *)
Definition InvariantError (message : string) : value := VError "InvariantError" message.



(** A row of the journal as the tools use it: [{ id, title, ... }].  Ids
    are integers, printed by a template string in plain decimal digits. *)
Record entry : Type := Entry {
  entry_id : Z;
  entry_title : string;
  entry_rest : list (string * value);
}.

Definition entry_value (e : entry) : value :=
  VObj (("id", VNum (entry_id e)) :: ("title", VStr (entry_title e)) :: entry_rest e).

(** A tag as the tools use it: [{ id, name, ... }]. *)
Record tag : Type := Tag {
  tag_id : Z;
  tag_name : string;
  tag_rest : list (string * value);
}.

(** The part of the database client the modelled tools call. *)
Record DBClient (DB : Type) : Type := {
  getEntry : DB → Z → option entry;
  getEntries : DB → list entry;
  deleteEntry : DB → Z → DB;
}.
Arguments getEntry {DB} _ _ _.
Arguments getEntries {DB} _ _.
Arguments deleteEntry {DB} _ _ _.

(** What the tools are given from outside: the database client, the
    capabilities the MCP client announced, its answer to an elicitation
    request, and [JSON.stringify]. *)
Record platform (DB : Type) : Type := {
  client : DBClient DB;
  getClientCapabilities : value;
  elicitInput : string → value;
  JSON_stringify : value → value;
}.
Arguments client {DB} _.
Arguments getClientCapabilities {DB} _.
Arguments elicitInput {DB} _ _.
Arguments JSON_stringify {DB} _ _.

(** The state a tool runs in: the database, and the elicitation requests
    sent to the client so far. *)
Record agent_state (DB : Type) : Type := AgentState {
  agent_db : DB;
  elicited : list string;
}.
Arguments AgentState {DB} _ _.
Arguments agent_db {DB} _.
Arguments elicited {DB} _.

Definition tool_run (DB A : Type) : Type :=
  agent_state DB → completion A * agent_state DB.

(** [createEntryResourceLink(entry)] *)
Definition createEntryResourceLink (e : entry) : value :=
  VObj [("type", VStr "resource_link");
        ("uri", VStr ("epicme://entries/" +:+ pretty (entry_id e)));
        ("name", VStr (entry_title e));
        ("description", VStr ("Journal Entry: " +:+ dquote +:+ entry_title e +:+ dquote));
        ("mimeType", VStr "application/json")].

(** [createTagResourceLink(tag)] *)
Definition createTagResourceLink (t : tag) : value :=
  VObj [("type", VStr "resource_link");
        ("uri", VStr ("epicme://tags/" +:+ pretty (tag_id t)));
        ("name", VStr (tag_name t));
        ("description", VStr ("Tag: " +:+ dquote +:+ tag_name t +:+ dquote));
        ("mimeType", VStr "application/json")].

Section Agent.

Context {DB : Type} (P : platform DB).

(** [createText(text)] *)
Definition createText (text : value) : value :=
  match text with
  | VStr _ => VObj [("type", VStr "text"); ("text", text)]
  | _ => VObj [("type", VStr "text"); ("text", JSON_stringify P text)]
  end.

(** [elicitConfirmation(agent, message)] *)
Definition elicitConfirmation (message : string) : tool_run DB bool := λ st,
  let capabilities := getClientCapabilities P in
  let cloudflareSupportsElicitation := false in
  match get_prop_opt capabilities "elicitation" with
  | Throw e => (Throw e, st)
  | Normal elicitation =>
      if negb (truthy elicitation) || negb cloudflareSupportsElicitation
      then (Normal true, st)
      else
        let result := elicitInput P message in
        let st' := AgentState (agent_db st) (elicited st ++ [message]) in
        match get_prop result "action" with
        | Throw e => (Throw e, st')
        | Normal action =>
            if negb (strict_eq_str action "accept") then (Normal false, st')
            else
              match get_prop result "content" with
              | Throw e => (Throw e, st')
              | Normal content =>
                  match get_prop_opt content "confirmed" with
                  | Throw e => (Throw e, st')
                  | Normal (VBool true) => (Normal true, st')
                  | Normal _ => (Normal false, st')
                  end
              end
        end
  end.

(** The handler of the tool ['delete_entry'].  [invariant(existingEntry,
    ...)] throws exactly when the database had no entry, an entry object
    being truthy. *)
Definition delete_entry (id : Z) : tool_run DB value := λ st,
  let existingEntry := getEntry (client P) (agent_db st) id in
  match existingEntry with
  | None =>
      (Throw (InvariantError
                ("Entry with ID " +:+ dquote +:+ pretty id +:+ dquote +:+ " not found")),
       st)
  | Some existingEntry =>
      match elicitConfirmation
              ("Are you sure you want to delete entry " +:+ dquote +:+
               entry_title existingEntry +:+ dquote +:+ " (ID: " +:+ pretty id +:+ ")?")
              st with
      | (Throw e, st') => (Throw e, st')
      | (Normal confirmed, st') =>
          if negb confirmed then
            let structuredContent :=
              VObj [("success", VBool false); ("entry", entry_value existingEntry)] in
            (Normal
               (VObj [("structuredContent", structuredContent);
                      ("content",
                       VArr [createText
                               (VStr ("Deleting entry " +:+ dquote +:+
                                      entry_title existingEntry +:+ dquote +:+
                                      " (ID: " +:+ pretty id +:+
                                      ") rejected by the user."));
                             createText structuredContent])]),
             st')
          else
            let st'' := AgentState (deleteEntry (client P) (agent_db st') id)
                                   (elicited st') in
            let structuredContent :=
              VObj [("success", VBool true); ("entry", entry_value existingEntry)] in
            (Normal
               (VObj [("structuredContent", structuredContent);
                      ("content",
                       VArr [createText
                               (VStr ("Entry " +:+ dquote +:+
                                      entry_title existingEntry +:+ dquote +:+
                                      " (ID: " +:+ pretty id +:+
                                      ") deleted successfully"));
                             createEntryResourceLink existingEntry;
                             createText structuredContent])]),
             st'')
      end
  end.

(** The handler of the tool ['list_entries']. *)
Definition list_entries : tool_run DB value := λ st,
  let entries := getEntries (client P) (agent_db st) in
  let entryLinks := createEntryResourceLink <$> entries in
  let structuredContent := VObj [("entries", VArr (entry_value <$> entries))] in
  (Normal
     (VObj [("structuredContent", structuredContent);
            ("content",
             VArr (createText (VStr ("Found " +:+ pretty (length entries) +:+ " entries."))
                   :: entryLinks ++ [createText structuredContent]))]),
   st).

End Agent.

(** ** Which listeners an event is addressed to *)

(** The closure takes the event as its own: a Sender's closure a reply to
    its [messageId], a Waiter's closure any render-data push. *)
Definition handles (h : handler) (event_data : value) : bool :=
  match h with
  | HSender _ messageId _ => is_response_for messageId event_data
  | HWaiter _ _ => is_render_data event_data
  end.

Definition is_sender (h : handler) : bool :=
  match h with
  | HSender _ _ _ => true
  | HWaiter _ _ => false
  end.

(** The identities of the listeners in [hs] the event is addressed to. *)
Definition addressed (d : value) (hs : list handler) : list nat :=
  handler_id <$> filter (λ h, handles h d = true) hs.

(** ** Consistency of a window *)

(** A promise whose [resolve] or [reject] has been called is settled, and
    it has been called once. *)
Definition settled_once (pr : promise) : Prop :=
  match pstate pr with
  | Pending => settle_calls pr = 0
  | Resolved _ | Rejected _ => settle_calls pr = 1
  end.

(** Every installed listener belongs to a call that is still pending, and
    no promise has been settled twice. *)
Record consistent (w : window) : Prop := {
  consistent_wf : wf w;
  consistent_listeners :
    ∀ h, h ∈ listeners w → promises w !! handler_id h = Some (Promise Pending 0);
  consistent_promises :
    ∀ q pr, promises w !! q = Some pr → settled_once pr;
}.

(** * Proofs *)

(** Unfolds the monad so that a run shows the state it threads. *)
Ltac js_run :=
  unfold react, mbind, js_bind, mret, js_ret, eval, throw, modify,
    removeEventListener, resolve, reject, settle_promise;
  cbn beta iota.

(** Uses the value of a pure sub-expression and takes the branch it selects. *)
Ltac js_rewrite H := rewrite ?H; cbn beta iota delta [negb].

Section Reactions.

Lemma settle_with_reaction p schema data error :
  ∃ s, ∀ w, settle_with p schema data error w = settle_promise p s w.
Proof.
  unfold settle_with, resolve, reject.
  destruct (truthy error); [by eexists|].
  destruct schema as [sch|]; [|by eexists].
  destruct (safeParse sch data); by eexists.
Qed.

Lemma tail_reaction p schema payload key :
  ∃ r, ∀ w,
    (removeEventListener p;;
     '(data, error) ← eval (destructure2 payload key "error");
     settle_with p schema data error) w = react p r w.
Proof.
  destruct (destructure2 payload key "error") as [[data error]|e] eqn:E.
  - destruct (settle_with_reaction p schema data error) as [s Hs].
    exists (Settles s). intros w. js_run. apply Hs.
  - exists (Detaches e). intros w. by js_run.
Qed.

Lemma handler_reaction h d :
  ∃ r, ∀ w, call_handler h d w = react (handler_id h) r w.
Proof.
  destruct h as [p mid schema|p schema]; cbn [call_handler handler_id].
  - unfold handleMessage_send.
    destruct (get_prop d "type") as [ty|e] eqn:Ety;
      [|exists (Faults e); intros w; js_run; by js_rewrite Ety].
    destruct (strict_eq_str ty "ui-message-response") eqn:E1;
      [|exists Ignores; intros w; js_run; js_rewrite Ety; by js_rewrite E1].
    destruct (get_prop d "messageId") as [m|e] eqn:Emid;
      [|exists (Faults e); intros w; js_run; js_rewrite Ety; js_rewrite E1;
        by js_rewrite Emid].
    destruct (strict_eq_str m mid) eqn:E2;
      [|exists Ignores; intros w; js_run; js_rewrite Ety; js_rewrite E1;
        js_rewrite Emid; by js_rewrite E2].
    destruct (get_prop d "payload") as [payload|e] eqn:Epl.
    + destruct (tail_reaction p schema payload "response") as [r Hr].
      exists r. intros w. rewrite <- Hr. js_run.
      js_rewrite Ety. js_rewrite E1. js_rewrite Emid. js_rewrite E2.
      by js_rewrite Epl.
    + exists (Detaches e). intros w. js_run.
      js_rewrite Ety. js_rewrite E1. js_rewrite Emid. js_rewrite E2.
      by js_rewrite Epl.
  - unfold handleMessage_wait.
    destruct (get_prop_opt d "type") as [ty|e] eqn:Ety;
      [|exists (Faults e); intros w; js_run; by js_rewrite Ety].
    destruct (strict_eq_str ty "ui-lifecycle-iframe-render-data") eqn:E1;
      [|exists Ignores; intros w; js_run; js_rewrite Ety; by js_rewrite E1].
    destruct (get_prop d "payload") as [payload|e] eqn:Epl.
    + destruct (tail_reaction p schema payload "renderData") as [r Hr].
      exists r. intros w. rewrite <- Hr. js_run.
      js_rewrite Ety. js_rewrite E1. by js_rewrite Epl.
    + exists (Detaches e). intros w. js_run.
      js_rewrite Ety. js_rewrite E1. by js_rewrite Epl.
Qed.

End Reactions.

(** ** Frame properties *)

Section Frame.

Lemma registered_spec q w :
  registered q w = true ↔ ∃ h, h ∈ listeners w ∧ handler_id h = q.
Proof.
  unfold registered. rewrite bool_decide_eq_true, list_elem_of_fmap.
  split; intros (h & ? & ?); eauto.
Qed.

Lemma registered_set_promises f q w :
  registered q (set_promises f w) = registered q w.
Proof. done. Qed.

Lemma registered_detach_ne p q w :
  q ≠ p → registered q (detach p w) = registered q w.
Proof.
  intros Hne. apply eq_true_iff_eq. rewrite !registered_spec. cbn.
  split; intros (h & Hin & Hid); exists h; split; try done.
  - by apply list_elem_of_filter in Hin as [_ ?].
  - apply list_elem_of_filter. split; [congruence|done].
Qed.

Lemma registered_detach_eq p w : registered p (detach p w) = false.
Proof.
  apply not_true_is_false. rewrite registered_spec. cbn.
  intros (h & Hin & Hid). by apply list_elem_of_filter in Hin as [? _].
Qed.

Lemma NoDup_ids_filter (P : handler → Prop) `{∀ h, Decision (P h)} l :
  NoDup (handler_id <$> l) → NoDup (handler_id <$> filter P l).
Proof.
  induction l as [|h l IH]; [done|]. rewrite fmap_cons, filter_cons.
  intros [Hh Hl]%NoDup_cons.
  destruct (decide (P h)); [|by apply IH].
  rewrite fmap_cons. apply NoDup_cons. split; [|by apply IH].
  rewrite list_elem_of_fmap in *. intros (h' & Heq & Hin).
  apply Hh. exists h'. split; [done|].
  by apply list_elem_of_filter in Hin as [_ ?].
Qed.

Lemma wf_detach p w : wf w → wf (detach p w).
Proof.
  intros [Hnd Hb]. split; cbn.
  - by apply NoDup_ids_filter.
  - intros h Hin. apply Hb. by apply list_elem_of_filter in Hin as [_ ?].
Qed.

Lemma react_focus_ne p r w q :
  q ≠ p → focus q (exec (react p r) w) = focus q w.
Proof.
  intros Hne. unfold focus, exec.
  destruct r; js_run; cbn; rewrite ?lookup_alter_ne by done;
    rewrite ?registered_set_promises, ?registered_detach_ne by done; done.
Qed.

Lemma react_focus_eq p r w w' :
  focus p w = focus p w' →
  focus p (exec (react p r) w) = focus p (exec (react p r) w').
Proof.
  unfold focus, exec. intros [= Hp Hr].
  destruct r; js_run; cbn; rewrite ?lookup_alter_eq, ?Hp;
    rewrite ?registered_set_promises, ?registered_detach_eq; congruence.
Qed.

Lemma react_focus p r w :
  focus p (exec (react p r) w) =
  match r with
  | Ignores | Faults _ => focus p w
  | Detaches _ => (promises w !! p, false)
  | Settles s => (settle s <$> promises w !! p, false)
  end.
Proof.
  unfold focus, exec.
  destruct r; js_run; cbn; rewrite ?lookup_alter_eq;
    by rewrite ?registered_set_promises, ?registered_detach_eq.
Qed.

Lemma react_outside p r w : outside (exec (react p r) w) = outside w.
Proof. by destruct r. Qed.

Lemma react_wf p r w : wf w → wf (exec (react p r) w).
Proof.
  intros Hwf. destruct r; js_run; cbn; try done; try by apply wf_detach.
  destruct (wf_detach p w Hwf) as [? ?]. by split.
Qed.

(** Running one listener of the snapshot: the reaction of its closure,
    and a report if it threw. *)
Lemma invoke_listener_react d w h :
  ∃ r, (∀ w', call_handler h d w' = react (handler_id h) r w') ∧
    ∃ f, invoke_listener d w h =
         if registered (handler_id h) w
         then set_uncaught f (exec (react (handler_id h) r) w)
         else w.
Proof.
  destruct (handler_reaction h d) as [r Hr]. exists r. split; [done|].
  unfold invoke_listener, exec. rewrite Hr.
  destruct (react (handler_id h) r w) as [[[]|e] w'].
  - exists id. by destruct w', (registered _ w).
  - by eexists.
Qed.

Lemma invoke_listener_focus_ne d w h q :
  handler_id h ≠ q → focus q (invoke_listener d w h) = focus q w.
Proof.
  intros Hne. destruct (invoke_listener_react d w h) as (r & _ & f & ->).
  destruct (registered _ w); [|done].
  by rewrite <- (react_focus_ne (handler_id h) r w q).
Qed.

Lemma invoke_listener_outside d w h :
  outside (invoke_listener d w h) = outside w.
Proof.
  destruct (invoke_listener_react d w h) as (r & _ & f & ->).
  destruct (registered _ w); [|done].
  by rewrite <- (react_outside (handler_id h) r w).
Qed.

Lemma invoke_listener_wf d w h : wf w → wf (invoke_listener d w h).
Proof.
  intros Hwf. destruct (invoke_listener_react d w h) as (r & _ & f & ->).
  destruct (registered _ w); [|done].
  destruct (react_wf (handler_id h) r w Hwf) as [? ?]. by split.
Qed.

Lemma foldl_invoke_focus_ne d q hs : ∀ w,
  (∀ h, h ∈ hs → handler_id h ≠ q) →
  focus q (foldl (invoke_listener d) w hs) = focus q w.
Proof.
  induction hs as [|h hs IH]; intros w Hall; [done|]. cbn.
  rewrite IH by (intros h' ?; apply Hall; by right).
  apply invoke_listener_focus_ne, Hall. by left.
Qed.

Lemma foldl_invoke_outside d hs : ∀ w,
  outside (foldl (invoke_listener d) w hs) = outside w.
Proof.
  induction hs as [|h hs IH]; intros w; [done|]. cbn.
  by rewrite IH, invoke_listener_outside.
Qed.

Lemma foldl_invoke_wf d hs : ∀ w, wf w → wf (foldl (invoke_listener d) w hs).
Proof.
  induction hs as [|h hs IH]; intros w Hwf; [done|]. cbn.
  by apply IH, invoke_listener_wf.
Qed.

Lemma dispatch_outside d w : outside (dispatch d w) = outside w.
Proof. apply foldl_invoke_outside. Qed.

Lemma dispatch_wf d w : wf w → wf (dispatch d w).
Proof. apply foldl_invoke_wf. Qed.

(** An event does not concern a call whose listener is not installed. *)
Lemma dispatch_focus_absent d w p :
  registered p w = false → focus p (dispatch d w) = focus p w.
Proof.
  intros Hno. apply foldl_invoke_focus_ne. intros h Hin Hid.
  apply not_true_iff_false in Hno. apply Hno, registered_spec. eauto.
Qed.

(** For a call whose listener is installed, an event does to the call
    what its own closure does with it. *)
Lemma dispatch_focus_present d w h r :
  wf w → h ∈ listeners w →
  (∀ w', call_handler h d w' = react (handler_id h) r w') →
  focus (handler_id h) (dispatch d w) =
  focus (handler_id h) (exec (react (handler_id h) r) w).
Proof.
  intros [Hnd _] Hin Hr. unfold dispatch.
  destruct (list_elem_of_split _ _ Hin) as (l1 & l2 & Hl).
  assert (Hreg : registered (handler_id h) w = true)
    by (apply registered_spec; eauto).
  rewrite Hl in Hnd |- *. rewrite fmap_app, fmap_cons in Hnd.
  apply NoDup_app in Hnd as (_ & Hl1 & Hnd).
  apply NoDup_cons in Hnd as [Hl2 _].
  rewrite foldl_app. cbn.
  set (w1 := foldl (invoke_listener d) w l1).
  assert (H1 : focus (handler_id h) w1 = focus (handler_id h) w).
  { apply foldl_invoke_focus_ne. intros h' Hin' Heq.
    apply (Hl1 (handler_id h')); [by apply list_elem_of_fmap_2|].
    rewrite Heq. by left. }
  rewrite foldl_invoke_focus_ne.
  2:{ intros h' Hin' Heq. apply Hl2. rewrite <- Heq.
      by apply list_elem_of_fmap_2. }
  destruct (invoke_listener_react d w1 h) as (r' & Hr' & f & ->).
  assert (Hreg1 : registered (handler_id h) w1 = true).
  { unfold focus in H1. injection H1 as _ ->. done. }
  rewrite Hreg1.
  transitivity (focus (handler_id h) (exec (react (handler_id h) r') w1));
    [done|].
  unfold exec. rewrite <- Hr', Hr. by apply react_focus_eq.
Qed.

Lemma deliver_outside events : ∀ w, outside (deliver events w) = outside w.
Proof.
  induction events as [|d ds IH]; intros w; [done|]. cbn.
  change (outside (deliver ds (dispatch d w)) = outside w).
  by rewrite IH, dispatch_outside.
Qed.

Lemma deliver_wf events : ∀ w, wf w → wf (deliver events w).
Proof.
  induction events as [|d ds IH]; intros w Hwf; [done|].
  by apply (IH (dispatch d w)), dispatch_wf.
Qed.

Lemma deliver_focus_absent events p : ∀ w,
  registered p w = false → focus p (deliver events w) = focus p w.
Proof.
  induction events as [|d ds IH]; intros w Hno; [done|].
  change (focus p (deliver ds (dispatch d w)) = focus p w).
  pose proof (dispatch_focus_absent d w p Hno) as Hd.
  rewrite IH; [done|]. unfold focus in Hd. injection Hd as _ ->. done.
Qed.

Lemma deliver_app evs1 evs2 w :
  deliver (evs1 ++ evs2) w = deliver evs2 (deliver evs1 w).
Proof. apply foldl_app. Qed.

End Frame.

(** ** The calls *)

Section Calls.

Lemma wf_fresh w : wf w → registered (next_promise w) w = false.
Proof.
  intros [_ Hb]. apply not_true_is_false. intros (h & Hin & Hid)%registered_spec.
  specialize (Hb h Hin). lia.
Qed.

Lemma wf_fresh_window par src : wf (fresh_window par src).
Proof. split; cbn; [constructor|]. intros h Hin. inversion Hin. Qed.

(** Registering the closure of a new promise keeps the window well formed
    and leaves the other calls alone. *)
Lemma wf_install h post w :
  wf w → handler_id h = next_promise w →
  wf (Window (parent w) post (listeners w ++ [h])
             (<[next_promise w := Promise Pending 0]> (promises w))
             (S (next_promise w)) (console w) (uncaught w)
             (uuid_source w) (S (uuid_calls w))) ∧
  wf (Window (parent w) post (listeners w ++ [h])
             (<[next_promise w := Promise Pending 0]> (promises w))
             (S (next_promise w)) (console w) (uncaught w)
             (uuid_source w) (uuid_calls w)).
Proof.
  intros Hwf Hid. pose proof (wf_fresh w Hwf) as Hfresh.
  destruct Hwf as [Hnd Hb].
  assert (NoDup (handler_id <$> listeners w ++ [h])) as Hnd'.
  { rewrite fmap_app. apply NoDup_app. split; [done|]. split.
    - intros q Hq [->|[]%elem_of_nil]%elem_of_cons.
      apply list_elem_of_fmap in Hq as (h' & Heq & Hin).
      specialize (Hb h' Hin). lia.
    - cbn. apply NoDup_singleton. }
  assert (∀ h', h' ∈ listeners w ++ [h] → handler_id h' < S (next_promise w)) as Hb'.
  { intros h' [Hin|[->|[]%elem_of_nil]%elem_of_cons]%elem_of_app; [|lia].
    specialize (Hb h' Hin). lia. }
  by split; split.
Qed.

Lemma send_hosted type payload schema w :
  wf w → parent w = ParentOther →
  let p := next_promise w in
  let messageId := uuid_source w (uuid_calls w) in
  sendMcpMessage type payload schema w =
    (Normal p,
     Window ParentOther
            (posted w ++ [request_envelope type messageId payload])
            (listeners w ++ [HSender p messageId schema])
            (<[p := Promise Pending 0]> (promises w)) (S p)
            (console w) (uncaught w) (uuid_source w) (S (uuid_calls w))).
Proof.
  intros Hwf Hpar p messageId. pose proof (wf_fresh w Hwf) as Hfresh.
  unfold sendMcpMessage, new_Promise, randomUUID, window_parent, postMessage,
    addEventListener, console_log. js_run. cbn. rewrite Hpar. cbn.
  unfold registered in *. cbn. by rewrite Hfresh.
Qed.

Lemma send_unhosted type payload schema w :
  parent w ≠ ParentOther →
  let p := next_promise w in
  let messageId := uuid_source w (uuid_calls w) in
  sendMcpMessage type payload schema w =
    (Normal p,
     Window (parent w) (posted w) (listeners w)
            (alter (settle (Rejected (VError "Error" "No parent frame available")))
                   p (<[p := Promise Pending 0]> (promises w)))
            (S p)
            (console w ++
               [("[MCP] No parent frame available. Would have sent message:",
                 request_envelope type messageId payload)])
            (uncaught w) (uuid_source w) (S (uuid_calls w))).
Proof.
  intros Hpar p messageId.
  unfold sendMcpMessage, new_Promise, randomUUID, window_parent, postMessage,
    addEventListener, console_log. js_run. cbn.
  by destruct (parent w).
Qed.

Lemma wait_hosted schema w :
  wf w → parent w ≠ ParentNull →
  let p := next_promise w in
  waitForRenderData schema w =
    (Normal p,
     Window (parent w) (posted w ++ [ready_signal])
            (listeners w ++ [HWaiter p schema])
            (<[p := Promise Pending 0]> (promises w)) (S p)
            (console w) (uncaught w) (uuid_source w) (uuid_calls w)).
Proof.
  intros Hwf Hpar p. pose proof (wf_fresh w Hwf) as Hfresh.
  unfold waitForRenderData, new_Promise, window_parent, postMessage,
    addEventListener. js_run. cbn.
  destruct (parent w); [done| |]; cbn; unfold registered in *; cbn;
    by rewrite Hfresh.
Qed.

Lemma wait_detached schema w :
  parent w = ParentNull →
  let p := next_promise w in
  waitForRenderData schema w =
    (Normal p,
     Window ParentNull (posted w) (listeners w)
            (alter (settle (Rejected
                      (TypeError "Cannot read properties of null, reading postMessage")))
                   p (<[p := Promise Pending 0]> (promises w)))
            (S p) (console w) (uncaught w) (uuid_source w) (uuid_calls w)).
Proof.
  intros Hpar p.
  unfold waitForRenderData, new_Promise, window_parent, postMessage,
    addEventListener. js_run. cbn. by rewrite Hpar.
Qed.

Lemma send_awaiting type payload schema w :
  wf w → parent w = ParentOther →
  awaiting (HSender (next_promise w) (uuid_source w (uuid_calls w)) schema)
           (exec (sendMcpMessage type payload schema) w).
Proof.
  intros Hwf Hpar. unfold exec. rewrite send_hosted by done. cbn.
  split; cbn.
  - rewrite <- Hpar. by apply wf_install.
  - apply elem_of_app. right. by left.
  - apply lookup_insert_eq.
Qed.

Lemma wait_awaiting schema w :
  wf w → parent w ≠ ParentNull →
  awaiting (HWaiter (next_promise w) schema) (exec (waitForRenderData schema) w).
Proof.
  intros Hwf Hpar. unfold exec. rewrite wait_hosted by done. cbn.
  split; cbn.
  - by apply wf_install.
  - apply elem_of_app. right. by left.
  - apply lookup_insert_eq.
Qed.

(** Well-formedness looks at the listeners and at the promise counter. *)
Lemma wf_same_listeners w w' :
  wf w → listeners w' = listeners w → (next_promise w ≤ next_promise w')%nat →
  wf w'.
Proof.
  intros [Hnd Hb] Hl Hn. split; rewrite Hl; [done|].
  intros h Hin. specialize (Hb h Hin). lia.
Qed.

Lemma init_keeps rootRef_current w :
  listeners (exec (useMcpUiInit rootRef_current) w) = listeners w ∧
  next_promise (exec (useMcpUiInit rootRef_current) w) = next_promise w.
Proof.
  unfold exec, useMcpUiInit, window_parent, postMessage. js_run. cbn.
  destruct (parent w) eqn:Hpar; [done| |];
    (destruct rootRef_current as [root|]; cbn; [rewrite Hpar|]; done).
Qed.

Lemma init_document_keeps documentElement w :
  listeners (exec (useMcpUiInit_document documentElement) w) = listeners w ∧
  next_promise (exec (useMcpUiInit_document documentElement) w) = next_promise w.
Proof.
  unfold exec, useMcpUiInit_document, window_parent, postMessage. js_run. cbn.
  destruct (parent w) eqn:Hpar; [done| |]; cbn; by rewrite Hpar.
Qed.

(** Every step keeps the window well formed, so every reachable window is. *)
Lemma wf_step w w' : wf w → step w w' → wf w'.
Proof.
  intros Hwf Hstep. destruct Hstep.
  - unfold exec. destruct (parent w) eqn:Hpar.
    3:{ rewrite send_hosted by done. cbn. rewrite <- Hpar. by apply wf_install. }
    all: rewrite send_unhosted by congruence;
      apply (wf_same_listeners w); [done|done|cbn; lia].
  - unfold exec. destruct (parent w) eqn:Hpar.
    2,3: rewrite wait_hosted by congruence; cbn; by apply wf_install.
    rewrite wait_detached by done.
    apply (wf_same_listeners w); [done|done|cbn; lia].
  - destruct (init_keeps rootRef_current w) as [Hl Hn].
    apply (wf_same_listeners w); [done|done|lia].
  - destruct (init_document_keeps documentElement w) as [Hl Hn].
    apply (wf_same_listeners w); [done|done|lia].
  - by apply dispatch_wf.
Qed.

Lemma reachable_wf w : reachable w → wf w.
Proof.
  induction 1 as [par src|w w' _ IH Hstep]; [apply wf_fresh_window|].
  by apply (wf_step w).
Qed.


End Calls.

(** ** Listeners are only ever removed by their own closure *)

Section Shrinks.

Lemma shrinks_refl w : shrinks w w.
Proof. by split. Qed.

Lemma shrinks_trans w1 w2 w3 : shrinks w1 w2 → shrinks w2 w3 → shrinks w1 w3.
Proof.
  intros [H12 K12] [H23 K23]. split; [by auto|].
  intros h Hin Hreg. apply K23; [|done]. apply K12; [done|].
  apply registered_spec in Hreg as (h' & Hin' & Hid).
  apply registered_spec. eauto.
Qed.

Lemma shrinks_detach p w : shrinks w (detach p w).
Proof.
  split; cbn.
  - intros h Hin. by apply list_elem_of_filter in Hin as [_ ?].
  - intros h Hin (h' & Hin' & Hid)%registered_spec. cbn in Hin'.
    apply list_elem_of_filter in Hin' as [Hne _].
    apply list_elem_of_filter. split; [congruence|done].
Qed.

Lemma shrinks_react p r w : shrinks w (exec (react p r) w).
Proof.
  destruct r; try apply shrinks_refl; apply (shrinks_detach p w).
Qed.

Lemma shrinks_invoke d w h : shrinks w (invoke_listener d w h).
Proof.
  destruct (invoke_listener_react d w h) as (r & _ & f & ->).
  destruct (registered _ w); [|apply shrinks_refl].
  apply (shrinks_react (handler_id h) r w).
Qed.

Lemma shrinks_foldl d hs : ∀ w, shrinks w (foldl (invoke_listener d) w hs).
Proof.
  induction hs as [|h hs IH]; intros w; [apply shrinks_refl|]. cbn.
  eapply shrinks_trans; [apply shrinks_invoke|apply IH].
Qed.

Lemma shrinks_dispatch d w : shrinks w (dispatch d w).
Proof. apply shrinks_foldl. Qed.

End Shrinks.

(** ** Which reaction an event gets *)

Section Verdicts.

Lemma settle_with_verdict p schema data error w :
  settle_with p schema data error w =
  settle_promise p (verdict schema data error) w.
Proof.
  unfold settle_with, verdict, settlement_of, resolve, reject.
  destruct (truthy error); [done|].
  destruct schema as [sch|]; [|done]. by destruct (safeParse sch data).
Qed.

(** An event that is not a reply to [messageId] is ignored by the
    closure, or, when [event.data] is [undefined] or [null], makes the
    member access throw; the window is left as it was. *)
Lemma send_nonmatch p messageId schema d :
  is_response_for messageId d = false →
  ∃ r, (r = Ignores ∨ ∃ e, r = Faults e) ∧
       ∀ w, call_handler (HSender p messageId schema) d w = react p r w.
Proof.
  unfold is_response_for. cbn [call_handler]. unfold handleMessage_send.
  destruct (get_prop d "type") as [ty|e] eqn:Ety.
  2:{ intros _. exists (Faults e). split; [eauto|]. intros w. by js_run. }
  destruct (get_prop d "messageId") as [m|e] eqn:Emid.
  2:{ destruct d; done. }
  intros Hno. exists Ignores. split; [by left|]. intros w. js_run.
  destruct (strict_eq_str ty "ui-message-response"); [|done].
  cbn in Hno. js_rewrite Emid. by js_rewrite Hno.
Qed.

Lemma send_match p messageId schema d :
  is_response_for messageId d = true →
  ∀ w, call_handler (HSender p messageId schema) d w =
       react p (match reply_fields d "response" with
                | Normal (response, error) => Settles (verdict schema response error)
                | Throw e => Detaches e
                end) w.
Proof.
  unfold is_response_for, reply_fields. cbn [call_handler].
  unfold handleMessage_send.
  destruct (get_prop d "type") as [ty|e] eqn:Ety; [|done].
  destruct (get_prop d "messageId") as [m|e] eqn:Emid; [|done].
  intros [E1 E2]%andb_true_iff w. js_run.
  js_rewrite E1. js_rewrite Emid. js_rewrite E2.
  destruct (get_prop d "payload") as [payload|e]; [|done].
  destruct (destructure2 payload "response" "error") as [[response error]|e];
    [|done].
  apply settle_with_verdict.
Qed.

Lemma wait_nonmatch p schema d :
  is_render_data d = false →
  ∀ w, call_handler (HWaiter p schema) d w = react p Ignores w.
Proof.
  unfold is_render_data. cbn [call_handler]. unfold handleMessage_wait.
  destruct (get_prop_opt d "type") as [ty|e] eqn:Ety.
  2:{ destruct d; done. }
  intros Hno w. js_run. by js_rewrite Hno.
Qed.

Lemma wait_match p schema d :
  is_render_data d = true →
  ∀ w, call_handler (HWaiter p schema) d w =
       react p (match reply_fields d "renderData" with
                | Normal (renderData, error) =>
                    Settles (verdict schema renderData error)
                | Throw e => Detaches e
                end) w.
Proof.
  unfold is_render_data, reply_fields. cbn [call_handler].
  unfold handleMessage_wait.
  destruct (get_prop_opt d "type") as [ty|e] eqn:Ety; [|done].
  intros E1 w. js_run. js_rewrite E1.
  destruct (get_prop d "payload") as [payload|e]; [|done].
  destruct (destructure2 payload "renderData" "error")
    as [[renderData error]|e]; [|done].
  apply settle_with_verdict.
Qed.


End Verdicts.

(** ** Pending calls and events *)

Section Pending.

Lemma awaiting_focus h w :
  awaiting h w → focus (handler_id h) w = (Some (Promise Pending 0), true).
Proof.
  intros [_ Hin Hp]. unfold focus. rewrite Hp. f_equal.
  apply registered_spec. eauto.
Qed.

Lemma awaiting_dispatch_keep h d w :
  awaiting h w →
  focus (handler_id h) (dispatch d w) = focus (handler_id h) w →
  awaiting h (dispatch d w).
Proof.
  intros Haw Hf. pose proof (awaiting_focus h w Haw) as Hw.
  destruct Haw as [Hwf Hin Hp]. rewrite Hw in Hf.
  injection Hf as Hp' Hreg. split.
  - by apply dispatch_wf.
  - by apply (shrinks_dispatch d w).
  - done.
Qed.

Lemma dispatch_focus_ignored h d w r :
  wf w → h ∈ listeners w →
  (r = Ignores ∨ ∃ e, r = Faults e) →
  (∀ w', call_handler h d w' = react (handler_id h) r w') →
  focus (handler_id h) (dispatch d w) = focus (handler_id h) w.
Proof.
  intros Hwf Hin Hr Hcall.
  rewrite (dispatch_focus_present d w h r) by done.
  by destruct Hr as [->|[e ->]].
Qed.

(** Events that are not a reply to a pending call of the Sender leave it
    pending. *)
Lemma awaiting_send_noise p messageId schema events : ∀ w,
  awaiting (HSender p messageId schema) w →
  Forall (λ d, is_response_for messageId d = false) events →
  awaiting (HSender p messageId schema) (deliver events w).
Proof.
  induction events as [|d ds IH]; intros w Haw Hall; [done|].
  apply Forall_cons in Hall as [Hd Hds].
  apply (IH (dispatch d w)); [|done].
  apply awaiting_dispatch_keep; [done|].
  destruct (send_nonmatch p messageId schema d Hd) as (r & Hr & Hcall).
  destruct Haw. by apply (dispatch_focus_ignored (HSender p messageId schema) d w r).
Qed.

(** Events that are not a render-data push leave the Waiter pending. *)
Lemma awaiting_wait_noise p schema events : ∀ w,
  awaiting (HWaiter p schema) w →
  Forall (λ d, is_render_data d = false) events →
  awaiting (HWaiter p schema) (deliver events w).
Proof.
  induction events as [|d ds IH]; intros w Haw Hall; [done|].
  apply Forall_cons in Hall as [Hd Hds].
  apply (IH (dispatch d w)); [|done].
  apply awaiting_dispatch_keep; [done|].
  destruct Haw.
  apply (dispatch_focus_ignored (HWaiter p schema) d w Ignores); auto.
  by apply wait_nonmatch.
Qed.

(** A matching event detaches the listener of a pending call and settles
    its promise as the closure's reaction says. *)
Lemma dispatch_awaiting_settles h d w s :
  awaiting h w →
  (∀ w', call_handler h d w' = react (handler_id h) (Settles s) w') →
  focus (handler_id h) (dispatch d w) = (Some (settle s (Promise Pending 0)), false).
Proof.
  intros [Hwf Hin Hp] Hcall.
  rewrite (dispatch_focus_present d w h (Settles s)) by done.
  unfold focus, exec. js_run. cbn.
  by rewrite lookup_alter_eq, Hp, registered_set_promises, registered_detach_eq.
Qed.

Lemma dispatch_awaiting_detaches h d w e :
  awaiting h w →
  (∀ w', call_handler h d w' = react (handler_id h) (Detaches e) w') →
  focus (handler_id h) (dispatch d w) = (Some (Promise Pending 0), false).
Proof.
  intros [Hwf Hin Hp] Hcall.
  rewrite (dispatch_focus_present d w h (Detaches e)) by done.
  unfold focus, exec. js_run. cbn. by rewrite Hp, registered_detach_eq.
Qed.

End Pending.

(** ** From a call to its settlement *)

Section Settlement.

Lemma dispatch_focus_congr h d w w' :
  wf w → wf w' → h ∈ listeners w → h ∈ listeners w' →
  focus (handler_id h) w = focus (handler_id h) w' →
  focus (handler_id h) (dispatch d w) = focus (handler_id h) (dispatch d w').
Proof.
  intros Hwf Hwf' Hin Hin' Hf. destruct (handler_reaction h d) as [r Hr].
  rewrite (dispatch_focus_present d w h r), (dispatch_focus_present d w' h r)
    by done.
  by apply react_focus_eq.
Qed.

(** A reply to a pending call of the Sender: the listener goes, and the
    promise is settled as the payload says, or left pending when the
    payload cannot be destructured. *)
Lemma awaiting_send_reply p messageId schema reply w :
  awaiting (HSender p messageId schema) w →
  is_response_for messageId reply = true →
  focus p (dispatch reply w) = reply_outcome schema "response" reply.
Proof.
  intros Haw Hm. pose proof (send_match p messageId schema reply Hm) as Hcall.
  unfold reply_outcome.
  destruct (reply_fields reply "response") as [[response error]|e].
  - by apply (dispatch_awaiting_settles (HSender p messageId schema)).
  - by apply (dispatch_awaiting_detaches (HSender p messageId schema) _ _ e).
Qed.

Lemma awaiting_wait_push p schema push w :
  awaiting (HWaiter p schema) w →
  is_render_data push = true →
  focus p (dispatch push w) = reply_outcome schema "renderData" push.
Proof.
  intros Haw Hm. pose proof (wait_match p schema push Hm) as Hcall.
  unfold reply_outcome.
  destruct (reply_fields push "renderData") as [[renderData error]|e].
  - by apply (dispatch_awaiting_settles (HWaiter p schema)).
  - by apply (dispatch_awaiting_detaches (HWaiter p schema) _ _ e).
Qed.

Lemma reply_outcome_detached schema key d : (reply_outcome schema key d).2 = false.
Proof. unfold reply_outcome. by destruct (reply_fields d key) as [[]|]. Qed.

Lemma reply_outcome_calls schema key d :
  ∃ pr, (reply_outcome schema key d).1 = Some pr ∧ (settle_calls pr ≤ 1)%nat.
Proof.
  unfold reply_outcome. destruct (reply_fields d key) as [[]|]; eexists;
    (split; [done|cbn; lia]).
Qed.

Lemma send_then_reply w type payload schema noise reply :
  wf w → parent w = ParentOther →
  Forall (λ d, is_response_for (uuid_source w (uuid_calls w)) d = false) noise →
  is_response_for (uuid_source w (uuid_calls w)) reply = true →
  focus (next_promise w)
        (deliver (noise ++ [reply]) (exec (sendMcpMessage type payload schema) w)) =
  reply_outcome schema "response" reply.
Proof.
  intros Hwf Hpar Hnoise Hm. rewrite deliver_app.
  apply (awaiting_send_reply _ (uuid_source w (uuid_calls w))); [|done].
  apply awaiting_send_noise; [|done]. by apply send_awaiting.
Qed.

Lemma wait_then_push w schema noise push :
  wf w → parent w ≠ ParentNull →
  Forall (λ d, is_render_data d = false) noise →
  is_render_data push = true →
  focus (next_promise w)
        (deliver (noise ++ [push]) (exec (waitForRenderData schema) w)) =
  reply_outcome schema "renderData" push.
Proof.
  intros Hwf Hpar Hnoise Hm. rewrite deliver_app.
  apply awaiting_wait_push; [|done].
  apply awaiting_wait_noise; [|done]. by apply wait_awaiting.
Qed.

Lemma reply_outcome_fields schema key d data error :
  reply_fields d key = Normal (data, error) →
  reply_outcome schema key d = (Some (Promise (verdict schema data error) 1), false).
Proof. unfold reply_outcome. by intros ->. Qed.

Lemma shrinks_deliver events : ∀ w, shrinks w (deliver events w).
Proof.
  induction events as [|d ds IH]; intros w; [apply shrinks_refl|].
  eapply shrinks_trans; [apply (shrinks_dispatch d)|apply (IH (dispatch d w))].
Qed.

Lemma deliver_no_listeners events : ∀ w,
  listeners w = [] → deliver events w = w.
Proof.
  induction events as [|d ds IH]; intros w Hl; [done|].
  change (deliver ds (dispatch d w) = w).
  assert (dispatch d w = w) as -> by (unfold dispatch; by rewrite Hl).
  by apply IH.
Qed.

End Settlement.

(** * The claims *)


(** C2 (at-most-once settlement).  When the first matching reply to a call
    has been processed, the call's listener is gone, whether or not the
    payload could be interpreted, and [resolve] or [reject] has been called
    at most once.  Any later events, also ones carrying the same
    [messageId], change neither the promise nor the listener list entry of
    the call, post nothing and log nothing; when the call's closure was the
    only listener of the window, they leave the whole window unchanged. *)
Theorem at_most_once_settlement w type payload schema noise reply later :
  wf w → parent w = ParentOther →
  let messageId := uuid_source w (uuid_calls w) in
  let p := next_promise w in
  let settled :=
    deliver (noise ++ [reply]) (exec (sendMcpMessage type payload schema) w) in
  Forall (λ d, is_response_for messageId d = false) noise →
  is_response_for messageId reply = true →
  (∀ w', registered p (exec (handleMessage_send p messageId schema reply) w') = false) ∧
  registered p settled = false ∧
  (∃ pr, promises settled !! p = Some pr ∧ (settle_calls pr ≤ 1)%nat) ∧
  focus p (deliver later settled) = focus p settled ∧
  outside (deliver later settled) = outside settled ∧
  (listeners w = [] → deliver later settled = settled).
Proof.
  intros Hwf Hpar messageId p settled Hnoise Hm.
  pose proof (send_then_reply w type payload schema noise reply Hwf Hpar Hnoise Hm)
    as Hf. fold settled p in Hf.
  assert (Hreg : registered p settled = false).
  { change (registered p settled) with (focus p settled).2.
    rewrite Hf. apply reply_outcome_detached. }
  split; [|split; [done|]; split; [|split; [|split]]].
  - intros w'. unfold exec.
    rewrite (send_match p messageId schema reply Hm w' : handleMessage_send _ _ _ _ _ = _).
    destruct (reply_fields reply "response") as [[response error]|e]; js_run; cbn;
      rewrite ?registered_set_promises; apply registered_detach_eq.
  - change (promises settled !! p) with (focus p settled).1.
    rewrite Hf. apply reply_outcome_calls.
  - by apply deliver_focus_absent.
  - apply deliver_outside.
  - intros Hl. apply deliver_no_listeners.
    destruct (listeners settled) as [|h' l] eqn:El; [done|exfalso].
    assert (Hin : h' ∈ listeners settled) by (rewrite El; by left).
    apply (proj1 (shrinks_deliver (noise ++ [reply])
                   (exec (sendMcpMessage type payload schema) w))) in Hin.
    unfold exec in Hin. rewrite send_hosted in Hin by done. cbn in Hin.
    rewrite Hl in Hin. apply list_elem_of_singleton in Hin as ->.
    apply not_true_iff_false in Hreg. apply Hreg, registered_spec.
    exists (HSender p messageId schema). split; [|done]. rewrite El. by left.
Qed.

(** C3, as amended (error precedence in the Sender).  A matching reply
    whose payload carries a truthy [error] rejects the promise with that
    very value, whatever [response] the payload has beside it and whether
    or not a schema was supplied: the schema is never consulted. *)
Theorem error_precedence w type payload schema noise reply response error :
  wf w → parent w = ParentOther →
  let messageId := uuid_source w (uuid_calls w) in
  Forall (λ d, is_response_for messageId d = false) noise →
  is_response_for messageId reply = true →
  reply_fields reply "response" = Normal (response, error) →
  truthy error = true →
  focus (next_promise w)
        (deliver (noise ++ [reply]) (exec (sendMcpMessage type payload schema) w)) =
  (Some (Promise (Rejected error) 1), false).
Proof.
  intros Hwf Hpar messageId Hnoise Hm Hfields Herr.
  rewrite send_then_reply by done.
  rewrite (reply_outcome_fields _ _ _ response error) by done.
  unfold verdict. by rewrite Herr.
Qed.

(** C4 (schema gate).  For a call made with a schema, a matching reply
    without a truthy [error] has [schema.safeParse] run on the payload's
    [response]: on failure the promise is rejected with the validator's
    error, on success it is resolved with the parsed value.  Nothing that
    arrives later changes this, so a response that failed validation is
    never what the promise resolves with. *)
Theorem schema_gate w type payload schema noise reply response error later :
  wf w → parent w = ParentOther →
  let messageId := uuid_source w (uuid_calls w) in
  let p := next_promise w in
  let settled :=
    deliver (noise ++ [reply])
            (exec (sendMcpMessage type payload (Some schema)) w) in
  Forall (λ d, is_response_for messageId d = false) noise →
  is_response_for messageId reply = true →
  reply_fields reply "response" = Normal (response, error) →
  truthy error = false →
  focus p settled =
    (Some (Promise (match safeParse schema response with
                    | ParseOk parsed => Resolved parsed
                    | ParseErr err => Rejected err
                    end) 1), false) ∧
  focus p (deliver later settled) = focus p settled.
Proof.
  intros Hwf Hpar messageId p settled Hnoise Hm Hfields Herr.
  assert (Hf : focus p settled = reply_outcome (Some schema) "response" reply)
    by by apply send_then_reply.
  split.
  - rewrite Hf, (reply_outcome_fields _ _ _ response error) by done.
    unfold verdict, settlement_of. by rewrite Herr.
  - apply deliver_focus_absent.
    change (registered p settled) with (focus p settled).2.
    rewrite Hf. apply reply_outcome_detached.
Qed.

(** C5 (no-schema passthrough).  For a call made without a schema, a
    matching reply without a truthy [error] resolves the promise with the
    payload's [response] as it is, whatever value that is. *)
Theorem no_schema_passthrough w type payload noise reply response error :
  wf w → parent w = ParentOther →
  let messageId := uuid_source w (uuid_calls w) in
  Forall (λ d, is_response_for messageId d = false) noise →
  is_response_for messageId reply = true →
  reply_fields reply "response" = Normal (response, error) →
  truthy error = false →
  focus (next_promise w)
        (deliver (noise ++ [reply]) (exec (sendMcpMessage type payload None) w)) =
  (Some (Promise (Resolved response) 1), false).
Proof.
  intros Hwf Hpar messageId Hnoise Hm Hfields Herr.
  rewrite send_then_reply by done.
  rewrite (reply_outcome_fields _ _ _ response error) by done.
  unfold verdict, settlement_of. by rewrite Herr.
Qed.

(** C6 (no-host immediate failure).  A call of the Sender returns its
    promise having drawn one fresh id.  When [window.parent] is [null] or
    the window itself, the promise is already rejected with the [Error]
    "No parent frame available", nothing has been posted and no listener
    has been installed (the would-be envelope is logged).  When
    [window.parent] is another window, exactly one message has been
    posted, the object with the three fields [type], the given type as
    one of the strings ['tool'], ['prompt'], ['link'], [messageId], the
    fresh id, and [payload], the given payload; the promise is pending,
    and in a well-formed window the call's listener has been installed. *)
Theorem no_host_immediate_failure w type payload schema :
  let p := next_promise w in
  let messageId := uuid_source w (uuid_calls w) in
  let envelope :=
    VObj [("type", VStr match type with
                        | tool => "tool"
                        | prompt => "prompt"
                        | link => "link"
                        end);
          ("messageId", VStr messageId);
          ("payload", payload)] in
  let result := sendMcpMessage type payload schema w in
  result.1 = Normal p ∧
  uuid_calls result.2 = S (uuid_calls w) ∧
  match parent w with
  | ParentNull | ParentSelf =>
      promises result.2 !! p =
        Some (Promise (Rejected (VError "Error" "No parent frame available")) 1) ∧
      posted result.2 = posted w ∧
      listeners result.2 = listeners w ∧
      console result.2 =
        console w ++ [("[MCP] No parent frame available. Would have sent message:",
                       envelope)]
  | ParentOther =>
      posted result.2 = posted w ++ [envelope] ∧
      promises result.2 !! p = Some (Promise Pending 0) ∧
      console result.2 = console w ∧
      (wf w → listeners result.2 = listeners w ++ [HSender p messageId schema])
  end.
Proof.
  intros p messageId envelope result. unfold result.
  replace envelope with (request_envelope type messageId payload)
    by by destruct type.
  clear envelope.
  destruct (parent w) eqn:Hpar.
  - rewrite send_unhosted by congruence. cbn.
    by rewrite lookup_alter_eq, lookup_insert_eq.
  - rewrite send_unhosted by congruence. cbn.
    by rewrite lookup_alter_eq, lookup_insert_eq.
  - split; [|split; [|split; [|split; [|split]]]].
    6:{ intros Hwf. by rewrite send_hosted. }
    all: unfold sendMcpMessage, new_Promise, randomUUID, window_parent, postMessage,
      addEventListener, console_log; js_run; cbn; rewrite Hpar; cbn;
      destruct (registered _ _); cbn; by rewrite ?lookup_insert_eq.
Qed.

(** C7, as amended (Render-Data Waiter).  In a window whose [window.parent]
    is a window, [waitForRenderData] posts the ready signal and then waits:
    events whose [data?.type] is not ['ui-lifecycle-iframe-render-data']
    leave it pending.  The first event of that type is taken whatever
    [messageId] it carries: the listener is removed, and the promise is
    rejected with the payload's [error] if that is truthy, otherwise
    settled by [schema.safeParse] on the payload's [renderData], rejected
    with the validator's error or resolved with the parsed value.  Later
    events do not change the outcome. *)
Theorem render_data_waiter w schema noise push renderData error later :
  wf w → parent w ≠ ParentNull →
  let p := next_promise w in
  let waiting := exec (waitForRenderData (Some schema)) w in
  let settled := deliver (noise ++ [push]) waiting in
  Forall (λ d, is_render_data d = false) noise →
  is_render_data push = true →
  reply_fields push "renderData" = Normal (renderData, error) →
  posted waiting = posted w ++ [ready_signal] ∧
  focus p (deliver noise waiting) = (Some (Promise Pending 0), true) ∧
  focus p settled =
    (Some (Promise (if truthy error then Rejected error
                    else match safeParse schema renderData with
                         | ParseOk parsed => Resolved parsed
                         | ParseErr err => Rejected err
                         end) 1), false) ∧
  focus p (deliver later settled) = focus p settled.
Proof.
  intros Hwf Hpar p waiting settled Hnoise Hm Hfields.
  assert (Hf : focus p settled = reply_outcome (Some schema) "renderData" push)
    by by apply wait_then_push.
  split; [|split; [|split]].
  - unfold waiting, exec. by rewrite wait_hosted.
  - apply (awaiting_focus (HWaiter p (Some schema))).
    apply awaiting_wait_noise; [|done]. by apply wait_awaiting.
  - by rewrite Hf, (reply_outcome_fields _ _ _ renderData error).
  - apply deliver_focus_absent.
    change (registered p settled) with (focus p settled).2.
    rewrite Hf. apply reply_outcome_detached.
Qed.

(** C8, as amended (Lifecycle Initializer).  On every mount in a window
    whose [window.parent] is a window, the effect of the hook completes
    normally and its whole effect is on the posted messages: first the
    object [{ type: 'ui-lifecycle-iframe-ready' }], whether or not a root
    element is there, and after it, exactly when [rootRef.current] is an
    element, one object [{ type: 'ui-size-change', payload: { height,
    width } }] with that element's [clientHeight] and [clientWidth];
    without an element nothing more is posted and nothing is thrown.  The
    variant of the hook that takes no ref measures the document element,
    which always exists, and so always posts the ready signal followed by
    one size signal.  When [window.parent] is [null], reading
    [postMessage] from it throws a [TypeError] at the first statement:
    nothing is posted. *)
Theorem lifecycle_initializer w rootRef_current documentElement :
  let ready := VObj [("type", VStr "ui-lifecycle-iframe-ready")] in
  let size height width :=
    VObj [("type", VStr "ui-size-change");
          ("payload", VObj [("height", VNum height); ("width", VNum width)])] in
  match parent w with
  | ParentNull =>
      ∃ message,
        useMcpUiInit rootRef_current w = (Throw (TypeError message), w) ∧
        useMcpUiInit_document documentElement w = (Throw (TypeError message), w)
  | ParentSelf | ParentOther =>
      useMcpUiInit rootRef_current w =
        (Normal (),
         set_posted (λ l, l ++ ready ::
                       match rootRef_current with
                       | Some root => [size (clientHeight root) (clientWidth root)]
                       | None => []
                       end) w) ∧
      useMcpUiInit_document documentElement w =
        (Normal (),
         set_posted (λ l, l ++ [ready;
                                size (scrollHeight documentElement)
                                     (scrollWidth documentElement)]) w)
  end.
Proof.
  intros ready size. unfold useMcpUiInit, useMcpUiInit_document, window_parent.
  destruct w as [par post ls ps np con unc src calls]. cbn [parent].
  destruct par; js_run; cbn; unfold modify, set_posted; cbn.
  - by eexists.
  - split; [destruct rootRef_current as [root|]|]; cbn;
      unfold modify, set_posted; cbn; by rewrite <- ?app_assoc.
  - split; [destruct rootRef_current as [root|]|]; cbn;
      unfold modify, set_posted; cbn; by rewrite <- ?app_assoc.
Qed.

(** C9 (falsy error values are treated as absent).  Both closures test
    [error] for truthiness.  The values [0], the empty string, [false] and
    [null] are falsy, and a matching reply whose payload has a falsy
    [error], present or not, is not rejected on its account: the Sender
    goes on to resolve with [response], or to validate it when a schema
    was given, and the Waiter does the same with [renderData]. *)
Theorem falsy_error_is_absent w type payload schema noise reply response
    pushes push renderData error :
  wf w → parent w = ParentOther →
  truthy error = false →
  Forall (λ d, is_response_for (uuid_source w (uuid_calls w)) d = false) noise →
  is_response_for (uuid_source w (uuid_calls w)) reply = true →
  reply_fields reply "response" = Normal (response, error) →
  Forall (λ d, is_render_data d = false) pushes →
  is_render_data push = true →
  reply_fields push "renderData" = Normal (renderData, error) →
  Forall (λ e, truthy e = false) [VNum 0; VStr ""; VBool false; VNull] ∧
  focus (next_promise w)
        (deliver (noise ++ [reply]) (exec (sendMcpMessage type payload schema) w)) =
    (Some (Promise (settlement_of schema response) 1), false) ∧
  focus (next_promise w)
        (deliver (pushes ++ [push]) (exec (waitForRenderData schema) w)) =
    (Some (Promise (settlement_of schema renderData) 1), false).
Proof.
  intros Hwf Hpar Herr Hnoise Hm Hfields Hpushes Hpush Hpfields.
  split; [by repeat constructor|]. split.
  - rewrite send_then_reply by done.
    rewrite (reply_outcome_fields _ _ _ response error) by done.
    unfold verdict. by rewrite Herr.
  - rewrite wait_then_push by (done || congruence).
    rewrite (reply_outcome_fields _ _ _ renderData error) by done.
    unfold verdict. by rewrite Herr.
Qed.

(** C10, as amended (the Waiter has no host check).  [waitForRenderData]
    never compares [window.parent] with the window.  Whenever
    [window.parent] is a window, also the window itself, it posts the ready
    signal and installs its listener, and the promise stays pending, with
    the listener installed, under any events that are not a render-data
    push; the ready signal a top-level window thereby sends to itself is
    such an event.  When [window.parent] is [null], reading [postMessage]
    from it throws inside the executor: the promise is rejected with that
    [TypeError], nothing is posted and no listener is installed. *)
Theorem waiter_has_no_host_check w schema events :
  wf w →
  let p := next_promise w in
  let waiting := exec (waitForRenderData schema) w in
  (waitForRenderData schema w).1 = Normal p ∧
  match parent w with
  | ParentNull =>
      promises waiting !! p =
        Some (Promise (Rejected (TypeError
                "Cannot read properties of null, reading postMessage")) 1) ∧
      posted waiting = posted w ∧
      listeners waiting = listeners w
  | ParentSelf | ParentOther =>
      posted waiting = posted w ++ [ready_signal] ∧
      listeners waiting = listeners w ++ [HWaiter p schema] ∧
      promises waiting !! p = Some (Promise Pending 0) ∧
      is_render_data ready_signal = false ∧
      (Forall (λ d, is_render_data d = false) events →
       focus p (deliver events waiting) = (Some (Promise Pending 0), true))
  end.
Proof.
  intros Hwf p waiting.
  assert (Hnoise : parent w ≠ ParentNull →
            Forall (λ d, is_render_data d = false) events →
            focus p (deliver events waiting) = (Some (Promise Pending 0), true)).
  { intros Hpar Hev. apply (awaiting_focus (HWaiter p schema)).
    apply awaiting_wait_noise; [|done]. by apply wait_awaiting. }
  unfold waiting, exec in *. destruct (parent w) eqn:Hpar.
  - rewrite wait_detached by done. cbn.
    by rewrite lookup_alter_eq, lookup_insert_eq.
  - rewrite wait_hosted in * by congruence. cbn.
    rewrite lookup_insert_eq. repeat split; try done. by apply Hnoise.
  - rewrite wait_hosted in * by congruence. cbn.
    rewrite lookup_insert_eq. repeat split; try done. by apply Hnoise.
Qed.

(** * The claims at concrete inputs *)



(** A reply, then a second event with the same [messageId]. *)
Lemma at_most_once_settlement_witness :
  let reply := response_envelope "7f0c-a" (VObj [("response", VStr "deleted")]) in
  let again := response_envelope "7f0c-a" (VObj [("error", VStr "too late")]) in
  let settled :=
    deliver ([VNull; ready_signal] ++ [reply])
            (exec (sendMcpMessage tool delete_entry_request None) host_window) in
  (∀ w', registered 0 (exec (handleMessage_send 0 "7f0c-a" None reply) w') = false) ∧
  registered 0 settled = false ∧
  (∃ pr, promises settled !! 0 = Some pr ∧ (settle_calls pr ≤ 1)%nat) ∧
  focus 0 (deliver [again] settled) = focus 0 settled ∧
  outside (deliver [again] settled) = outside settled ∧
  (listeners host_window = [] → deliver [again] settled = settled).
Proof.
  intros reply again settled.
  apply (at_most_once_settlement host_window tool delete_entry_request None
           [VNull; ready_signal] reply [again]).
  - apply wf_fresh_window.
  - reflexivity.
  - repeat constructor.
  - reflexivity.
Defined.

(** C3 as stated fails: a reply whose payload has an [error] field holding
    the empty string is not rejected; the call resolves with [response]. *)
Lemma error_precedence_counterexample :
  let payload := VObj [("response", VStr "deleted"); ("error", VStr "")] in
  let reply := response_envelope "7f0c-a" payload in
  let settled :=
    deliver [reply] (exec (sendMcpMessage tool delete_entry_request None) host_window) in
  is_response_for "7f0c-a" reply = true ∧
  has_property payload "error" = true ∧
  reply_fields reply "response" = Normal (VStr "deleted", VStr "") ∧
  focus 0 settled = (Some (Promise (Resolved (VStr "deleted")) 1), false) ∧
  focus 0 settled ≠ (Some (Promise (Rejected (VStr "")) 1), false).
Proof.
  repeat split; try (vm_compute; reflexivity).
  intros H. vm_compute in H. discriminate H.
Qed.

(** An error beside a response that the schema would accept. *)
Lemma error_precedence_witness :
  let reply :=
    response_envelope "7f0c-a"
      (VObj [("response", VStr "deleted"); ("error", VStr "not found")]) in
  focus 0 (deliver ([VNull] ++ [reply])
             (exec (sendMcpMessage tool delete_entry_request (Some z_string))
                   host_window)) =
  (Some (Promise (Rejected (VStr "not found")) 1), false).
Proof.
  intros reply.
  apply (error_precedence host_window tool delete_entry_request (Some z_string)
           [VNull] reply (VStr "deleted") (VStr "not found")).
  - apply wf_fresh_window.
  - reflexivity.
  - repeat constructor.
  - reflexivity.
  - reflexivity.
  - reflexivity.
Defined.

(** A response the schema rejects. *)
Lemma schema_gate_witness :
  let reply := response_envelope "7f0c-a" (VObj [("response", VNum 7)]) in
  let settled :=
    deliver ([] ++ [reply])
            (exec (sendMcpMessage tool delete_entry_request (Some z_string))
                  host_window) in
  focus 0 settled =
    (Some (Promise (Rejected (VError "ZodError" "Expected string")) 1), false) ∧
  focus 0 (deliver [reply] settled) = focus 0 settled.
Proof.
  intros reply settled.
  apply (schema_gate host_window tool delete_entry_request z_string
           [] reply (VNum 7) VUndefined [reply]).
  - apply wf_fresh_window.
  - reflexivity.
  - constructor.
  - reflexivity.
  - reflexivity.
  - reflexivity.
Defined.

(** [null] as response, no schema. *)
Lemma no_schema_passthrough_witness :
  let reply := response_envelope "7f0c-a" (VObj [("response", VNull)]) in
  focus 0 (deliver ([ready_signal] ++ [reply])
             (exec (sendMcpMessage tool delete_entry_request None) host_window)) =
  (Some (Promise (Resolved VNull) 1), false).
Proof.
  intros reply.
  apply (no_schema_passthrough host_window tool delete_entry_request
           [ready_signal] reply VNull VUndefined).
  - apply wf_fresh_window.
  - reflexivity.
  - repeat constructor.
  - reflexivity.
  - reflexivity.
  - reflexivity.
Defined.

(** The delete request in a hosted window and in a top-level window. *)
Lemma no_host_immediate_failure_witness :
  posted (sendMcpMessage tool delete_entry_request None host_window).2 =
    [VObj [("type", VStr "tool"); ("messageId", VStr "7f0c-a");
           ("payload",
            VObj [("toolName", VStr "delete_entry");
                  ("params", VObj [("id", VNum 42)])])]] ∧
  promises (sendMcpMessage tool delete_entry_request None host_window).2 !! 0 =
    Some (Promise Pending 0) ∧
  promises (sendMcpMessage tool delete_entry_request None
              (fresh_window ParentSelf uuids)).2 !! 0 =
    Some (Promise (Rejected (VError "Error" "No parent frame available")) 1) ∧
  posted (sendMcpMessage tool delete_entry_request None
            (fresh_window ParentSelf uuids)).2 = [].
Proof.
  destruct (no_host_immediate_failure host_window tool delete_entry_request None)
    as (_ & _ & Hposted & Hpending & _).
  destruct (no_host_immediate_failure (fresh_window ParentSelf uuids) tool
              delete_entry_request None)
    as (_ & _ & Hrejected & Hnone & _).
  exact (conj Hposted (conj Hpending (conj Hrejected Hnone))).
Defined.

(** C7 as stated fails: a push whose payload has an [error] field holding
    [0] is not rejected; its [renderData] is validated and resolved. *)
Lemma render_data_waiter_counterexample :
  let payload := VObj [("renderData", VStr "entry"); ("error", VNum 0)] in
  let push := render_data_envelope payload in
  let settled :=
    deliver [push] (exec (waitForRenderData (Some z_string)) host_window) in
  is_render_data push = true ∧
  has_property payload "error" = true ∧
  reply_fields push "renderData" = Normal (VStr "entry", VNum 0) ∧
  focus 0 settled = (Some (Promise (Resolved (VStr "entry")) 1), false) ∧
  focus 0 settled ≠ (Some (Promise (Rejected (VNum 0)) 1), false).
Proof.
  repeat split; try (vm_compute; reflexivity).
  intros H. vm_compute in H. discriminate H.
Qed.

(** A push without [renderData], a schema with a default, a second push. *)
Lemma render_data_waiter_witness :
  let push := render_data_envelope (VObj []) in
  let waiting := exec (waitForRenderData (Some (z_string_default "none"))) host_window in
  let settled := deliver ([VNull; ready_signal] ++ [push]) waiting in
  posted waiting = posted host_window ++ [ready_signal] ∧
  focus 0 (deliver [VNull; ready_signal] waiting) = (Some (Promise Pending 0), true) ∧
  focus 0 settled = (Some (Promise (Resolved (VStr "none")) 1), false) ∧
  focus 0 (deliver [push] settled) = focus 0 settled.
Proof.
  intros push waiting settled.
  apply (render_data_waiter host_window (z_string_default "none")
           [VNull; ready_signal] push VUndefined VUndefined [push]).
  - apply wf_fresh_window.
  - discriminate.
  - repeat constructor.
  - reflexivity.
  - reflexivity.
Defined.

(** C8 as stated fails: where [window.parent] is [null] a mount posts no
    ready signal; the effect throws at its first statement. *)
Lemma lifecycle_initializer_counterexample :
  let w := fresh_window ParentNull uuids in
  useMcpUiInit (Some (Element 480 640)) w =
    (Throw (TypeError "Cannot read properties of null, reading postMessage"), w) ∧
  posted (exec (useMcpUiInit (Some (Element 480 640))) w) = [].
Proof. split; reflexivity. Qed.

(** A mounted root of 480 by 640, and a mount before the root exists. *)
Lemma lifecycle_initializer_witness :
  posted (exec (useMcpUiInit (Some (Element 480 640))) host_window) =
    [VObj [("type", VStr "ui-lifecycle-iframe-ready")];
     VObj [("type", VStr "ui-size-change");
           ("payload", VObj [("height", VNum 480); ("width", VNum 640)])]] ∧
  useMcpUiInit None host_window =
    (Normal (),
     set_posted (λ l, l ++ [VObj [("type", VStr "ui-lifecycle-iframe-ready")]])
                host_window).
Proof.
  destruct (lifecycle_initializer host_window (Some (Element 480 640))
              (DocumentElement 480 640)) as [Hroot _].
  destruct (lifecycle_initializer host_window None (DocumentElement 480 640))
    as [Hnone _].
  split; [|exact Hnone].
  unfold exec. rewrite Hroot. reflexivity.
Defined.

(** [error: 0] beside the data, for the Sender and for the Waiter. *)
Lemma falsy_error_is_absent_witness :
  let reply :=
    response_envelope "7f0c-a" (VObj [("response", VStr "deleted"); ("error", VNum 0)]) in
  let push :=
    render_data_envelope (VObj [("renderData", VStr "entry"); ("error", VNum 0)]) in
  Forall (λ e, truthy e = false) [VNum 0; VStr ""; VBool false; VNull] ∧
  focus 0 (deliver ([] ++ [reply])
             (exec (sendMcpMessage tool delete_entry_request (Some z_string))
                   host_window)) =
    (Some (Promise (Resolved (VStr "deleted")) 1), false) ∧
  focus 0 (deliver ([] ++ [push])
             (exec (waitForRenderData (Some z_string)) host_window)) =
    (Some (Promise (Resolved (VStr "entry")) 1), false).
Proof.
  intros reply push.
  apply (falsy_error_is_absent host_window tool delete_entry_request
           (Some z_string) [] reply (VStr "deleted") [] push (VStr "entry") (VNum 0)).
  - apply wf_fresh_window.
  - reflexivity.
  - reflexivity.
  - constructor.
  - reflexivity.
  - reflexivity.
  - constructor.
  - reflexivity.
  - reflexivity.
Defined.

(** C10 as stated fails: where [window.parent] is [null] the Waiter posts
    nothing, installs no listener and returns a rejected promise. *)
Lemma waiter_has_no_host_check_counterexample :
  let waiting :=
    exec (waitForRenderData (Some z_string)) (fresh_window ParentNull uuids) in
  posted waiting = [] ∧
  listeners waiting = [] ∧
  pstate <$> promises waiting !! 0 =
    Some (Rejected (TypeError "Cannot read properties of null, reading postMessage")).
Proof. repeat split; vm_compute; reflexivity. Qed.

(** A top-level window: the ready signal comes back to the window. *)
Lemma waiter_has_no_host_check_witness :
  let w := fresh_window ParentSelf uuids in
  let waiting := exec (waitForRenderData (Some z_string)) w in
  posted waiting = [ready_signal] ∧
  listeners waiting = [HWaiter 0 (Some z_string)] ∧
  focus 0 (deliver (posted waiting) waiting) = (Some (Promise Pending 0), true).
Proof.
  intros w waiting.
  destruct (waiter_has_no_host_check w (Some z_string) (posted waiting)
              (wf_fresh_window ParentSelf uuids))
    as (_ & Hposted & Hlisteners & _ & _ & Hpending).
  split; [exact Hposted|]. split; [exact Hlisteners|].
  apply Hpending. repeat constructor.
Defined.

(** * Beyond the claims: the link Sender and the callers *)

Section LinkSender.

Lemma handleMessage_link_is_send p messageId d w :
  handleMessage_link p messageId d w = handleMessage_send p messageId None d w.
Proof. reflexivity. Qed.

Lemma link_hosted url w :
  wf w → parent w ≠ ParentNull →
  let p := next_promise w in
  let messageId := uuid_source w (uuid_calls w) in
  sendLinkMcpMessage url w =
    (Normal p,
     Window (parent w)
            (posted w ++ [request_envelope link messageId (link_payload url)])
            (listeners w ++ [HSender p messageId None])
            (<[p := Promise Pending 0]> (promises w)) (S p)
            (console w) (uncaught w) (uuid_source w) (S (uuid_calls w))).
Proof.
  intros Hwf Hpar p messageId. pose proof (wf_fresh w Hwf) as Hfresh.
  unfold sendLinkMcpMessage, new_Promise, randomUUID, window_parent, postMessage,
    addEventListener. js_run. cbn.
  destruct (parent w); [done| |]; cbn; unfold registered in *; cbn;
    by rewrite Hfresh.
Qed.

Lemma link_detached url w :
  parent w = ParentNull →
  let p := next_promise w in
  sendLinkMcpMessage url w =
    (Normal p,
     Window ParentNull (posted w) (listeners w)
            (alter (settle (Rejected
                      (TypeError "Cannot read properties of null, reading postMessage")))
                   p (<[p := Promise Pending 0]> (promises w)))
            (S p) (console w) (uncaught w) (uuid_source w) (S (uuid_calls w))).
Proof.
  intros Hpar p.
  unfold sendLinkMcpMessage, new_Promise, randomUUID, window_parent, postMessage,
    addEventListener. js_run. cbn. by rewrite Hpar.
Qed.

Lemma link_awaiting url w :
  wf w → parent w ≠ ParentNull →
  awaiting (HSender (next_promise w) (uuid_source w (uuid_calls w)) None)
           (exec (sendLinkMcpMessage url) w).
Proof.
  intros Hwf Hpar. unfold exec. rewrite link_hosted by done. cbn.
  split; cbn.
  - by apply wf_install.
  - apply elem_of_app. right. by left.
  - apply lookup_insert_eq.
Qed.

End LinkSender.

(** X1.  The closure of [sendLinkMcpMessage] is the closure of the Sender
    called without a schema, and in a window embedded in a host the call
    itself does what [sendMcpMessage('link', { url })] does: the same
    promise, the same envelope posted, the same listener installed. *)
Theorem link_sender_agrees url w p messageId event_data w' :
  parent w = ParentOther →
  handleMessage_link p messageId event_data w' =
    handleMessage_send p messageId None event_data w' ∧
  sendLinkMcpMessage url w = sendMcpMessage link (link_payload url) None w.
Proof.
  intros Hpar. split; [reflexivity|].
  unfold sendLinkMcpMessage, sendMcpMessage, new_Promise, randomUUID,
    window_parent. js_run. cbn. by rewrite Hpar.
Qed.

(** X2.  [sendLinkMcpMessage] has no check of [window.parent].  In a
    top-level window, where the Sender rejects at once, it posts its
    request to the window itself, installs its listener and waits; the
    request, arriving back as an event, is not a reply and leaves the call
    pending.  Where [window.parent] is [null] the member access throws
    inside the executor: the promise is rejected with the [TypeError],
    nothing is posted and no listener is installed. *)
Theorem link_sender_unguarded url w :
  wf w →
  let p := next_promise w in
  let messageId := uuid_source w (uuid_calls w) in
  let request := request_envelope link messageId (link_payload url) in
  let waiting := exec (sendLinkMcpMessage url) w in
  match parent w with
  | ParentNull =>
      promises waiting !! p =
        Some (Promise (Rejected (TypeError
                "Cannot read properties of null, reading postMessage")) 1) ∧
      posted waiting = posted w ∧
      listeners waiting = listeners w
  | ParentSelf | ParentOther =>
      posted waiting = posted w ++ [request] ∧
      listeners waiting = listeners w ++ [HSender p messageId None] ∧
      focus p waiting = (Some (Promise Pending 0), true) ∧
      focus p (dispatch request waiting) = (Some (Promise Pending 0), true)
  end.
Proof.
  intros Hwf p messageId request waiting.
  assert (Hback : parent w ≠ ParentNull →
            focus p waiting = (Some (Promise Pending 0), true) ∧
            focus p (dispatch request waiting) = (Some (Promise Pending 0), true)).
  { intros Hpar. pose proof (link_awaiting url w Hwf Hpar) as Haw.
    split; [apply (awaiting_focus _ _ Haw)|].
    apply (awaiting_focus (HSender p messageId None)).
    apply (awaiting_send_noise p messageId None [request]); [done|].
    by repeat constructor. }
  unfold waiting, exec in *. destruct (parent w) eqn:Hpar.
  - rewrite link_detached by done. cbn.
    by rewrite lookup_alter_eq, lookup_insert_eq.
  - rewrite link_hosted in * by congruence. cbn. repeat split; try done;
      by apply Hback.
  - rewrite link_hosted in * by congruence. cbn. repeat split; try done;
      by apply Hback.
Qed.

(** X3.  A call of [sendLinkMcpMessage] in a window whose [window.parent]
    is a window ends, on the first reply with its [messageId], with its
    listener removed and its promise rejected with the payload's [error]
    if that is truthy, and otherwise resolved with the payload's
    [response] as it is; events before the reply that are not replies to
    it change nothing. *)
Theorem link_sender_settles url w noise reply response error :
  wf w → parent w ≠ ParentNull →
  let messageId := uuid_source w (uuid_calls w) in
  Forall (λ d, is_response_for messageId d = false) noise →
  is_response_for messageId reply = true →
  reply_fields reply "response" = Normal (response, error) →
  focus (next_promise w)
        (deliver (noise ++ [reply]) (exec (sendLinkMcpMessage url) w)) =
  (Some (Promise (if truthy error then Rejected error else Resolved response) 1),
   false).
Proof.
  intros Hwf Hpar messageId Hnoise Hm Hfields. rewrite deliver_app.
  change (deliver [reply] ?w0) with (dispatch reply w0).
  rewrite (awaiting_send_reply _ messageId None);
    [|apply awaiting_send_noise; [by apply link_awaiting|done]|done].
  by rewrite (reply_outcome_fields _ _ _ response error).
Qed.

Section Callers.

Lemma awaited_focus p w s n b :
  focus p w = (Some (Promise s n), b) → awaited p w = s.
Proof. unfold focus, awaited. by intros [= -> _]. Qed.

(** What [deleteEntrySchema] accepts, and what it hands on. *)
Lemma deleteEntrySchema_accepts v parsed :
  safeParse deleteEntrySchema v = ParseOk parsed ↔
  ∃ fields inner b,
    v = VObj fields ∧
    own_property fields "structuredContent" = VObj inner ∧
    own_property inner "success" = VBool b ∧
    parsed = VObj [("structuredContent", VObj [("success", VBool b)])].
Proof.
  unfold deleteEntrySchema, safeParse, z_object1, z_boolean. split.
  - destruct v as [| | | | | | |fields|]; try done.
    destruct (own_property fields "structuredContent")
      as [| | | | | | |inner|] eqn:E1; try done.
    unfold safeParse.
    destruct (own_property inner "success") as [| |b| | | | | |] eqn:E2; try done.
    intros [= Hp]. subst parsed. by exists fields, inner, b.
  - intros (fields & inner & b & -> & E1 & E2 & ->). rewrite E1.
    unfold safeParse. by rewrite E2.
Qed.

Lemma deleteEntrySchema_cases v :
  (∃ b, safeParse deleteEntrySchema v =
          ParseOk (VObj [("structuredContent", VObj [("success", VBool b)])])) ∨
  (∃ err, safeParse deleteEntrySchema v = ParseErr err).
Proof.
  destruct (safeParse deleteEntrySchema v) as [parsed|err] eqn:E; [left|by eauto].
  apply deleteEntrySchema_accepts in E as (fields & inner & b & _ & _ & _ & ->).
  by exists b.
Qed.

Lemma checked_delete_settled schema entry_id w noise reply response error :
  wf w → parent w = ParentOther →
  Forall (λ d, is_response_for (uuid_source w (uuid_calls w)) d = false) noise →
  is_response_for (uuid_source w (uuid_calls w)) reply = true →
  reply_fields reply "response" = Normal (response, error) →
  awaited (next_promise w)
          (deliver (noise ++ [reply]) (exec (handleDelete_send schema entry_id) w)) =
  verdict (Some schema) response error.
Proof.
  intros Hwf Hpar Hnoise Hm Hfields. apply (awaited_focus _ _ _ 1 false).
  unfold handleDelete_send. rewrite send_then_reply by done.
  by apply reply_outcome_fields.
Qed.

End Callers.

(** X4.  The delete button of the journal viewer (tool results): while no
    reply has come, no callback is called.  After the reply exactly one
    callback has been called, and it is [onDeleted] exactly when the
    payload has no truthy [error] and its [response] is an object whose
    [structuredContent] is an object whose [success] is the boolean
    [true]; in every other case the error boundary is shown. *)
Theorem delete_button_outcome w entry_id noise reply response error :
  wf w → parent w = ParentOther →
  let messageId := uuid_source w (uuid_calls w) in
  let p := next_promise w in
  let waiting := exec (handleDelete_send deleteEntrySchema entry_id) w in
  let called := handleDelete_resume (awaited p (deliver (noise ++ [reply]) waiting)) in
  Forall (λ d, is_response_for messageId d = false) noise →
  is_response_for messageId reply = true →
  reply_fields reply "response" = Normal (response, error) →
  handleDelete_resume (awaited p (deliver noise waiting)) = [] ∧
  (called = [OnDeleted] ∨ ∃ err, called = [ShowBoundary err]) ∧
  (called = [OnDeleted] ↔
   truthy error = false ∧
   ∃ fields inner,
     response = VObj fields ∧
     own_property fields "structuredContent" = VObj inner ∧
     own_property inner "success" = VBool true).
Proof.
  intros Hwf Hpar messageId p waiting called Hnoise Hm Hfields.
  assert (Hcalled : called = handleDelete_resume
                               (verdict (Some deleteEntrySchema) response error)).
  { unfold called, waiting, p.
    by rewrite (checked_delete_settled _ _ _ _ _ response error). }
  split; [|rewrite Hcalled; clear Hcalled called; unfold verdict, settlement_of].
  - unfold waiting, handleDelete_send.
    rewrite (awaited_focus p _ Pending 0 true); [done|].
    apply (awaiting_focus (HSender p messageId (Some deleteEntrySchema))).
    apply awaiting_send_noise; [by apply send_awaiting|done].
  - destruct (truthy error) eqn:Herr.
    { split; [right; by eexists|]. split; [done|]. by intros [? _]. }
    destruct (safeParse deleteEntrySchema response) as [parsed|err] eqn:E.
    + apply deleteEntrySchema_accepts in E
        as (fields & inner & b & -> & E1 & E2 & ->).
      destruct b; cbn.
      * split; [by left|]. split; [|done]. intros _. split; [done|].
        by exists fields, inner.
      * split; [right; by eexists|]. split; [done|].
        intros (_ & fields' & inner' & [= <-] & E1' & E2'). congruence.
    + split; [right; by eexists|]. split; [done|].
      intros (_ & fields & inner & -> & E1 & E2).
      assert (safeParse deleteEntrySchema (VObj fields) =
              ParseOk (VObj [("structuredContent", VObj [("success", VBool true)])]))
        as E' by (apply deleteEntrySchema_accepts; by exists fields, inner, true).
      congruence.
Qed.

(** X5.  The delete button in a window without a host ([window.parent] is
    [null] or the window itself): the click posts nothing, the error
    boundary is shown with the [Error] "No parent frame available" without
    any event having to arrive, and no later event changes that or marks
    the entry deleted. *)
Theorem delete_button_without_host schema w entry_id events :
  wf w → parent w ≠ ParentOther →
  let after := deliver events (exec (handleDelete_send schema entry_id) w) in
  handleDelete_resume (awaited (next_promise w) after) =
    [ShowBoundary (VError "Error" "No parent frame available")] ∧
  posted after = posted w.
Proof.
  intros Hwf Hpar after. unfold after, handleDelete_send, exec.
  rewrite send_unhosted by done. cbn [snd].
  match goal with |- context [deliver events ?w0] => set (w1 := w0) end.
  assert (Hf : focus (next_promise w) (deliver events w1) = focus (next_promise w) w1).
  { apply deliver_focus_absent. apply (wf_fresh w Hwf). }
  split.
  - rewrite (awaited_focus _ _ (Rejected (VError "Error" "No parent frame available"))
               1 (registered (next_promise w) w1)); [done|].
    rewrite Hf. unfold focus, w1. cbn.
    by rewrite lookup_alter_eq, lookup_insert_eq.
  - pose proof (deliver_outside events w1) as Ho. unfold outside in Ho.
    by injection Ho as _ -> _ _ _.
Qed.

(** X6.  The delete button of the entry viewer: without [doubleCheck] a
    click does nothing at all.  With it, the request is sent without a
    schema and [onDeleted] follows every reply that has no truthy [error],
    whatever the [response] says, also when it reports
    [success: false]; a truthy [error] goes to the error boundary. *)
Theorem entry_viewer_delete w entry_id noise reply response error :
  wf w → parent w = ParentOther →
  let messageId := uuid_source w (uuid_calls w) in
  let p := next_promise w in
  let settled :=
    deliver (noise ++ [reply]) (exec (handleDelete_viewer_send true entry_id) w) in
  Forall (λ d, is_response_for messageId d = false) noise →
  is_response_for messageId reply = true →
  reply_fields reply "response" = Normal (response, error) →
  handleDelete_viewer_send false entry_id w = (Normal None, w) ∧
  (handleDelete_viewer_send true entry_id w).1 = Normal (Some p) ∧
  handleDelete_viewer_resume (awaited p settled) =
    if truthy error then [ShowBoundary error] else [OnDeleted].
Proof.
  intros Hwf Hpar messageId p settled Hnoise Hm Hfields.
  assert (Hcall : handleDelete_viewer_send true entry_id w =
            (Normal (Some p),
             exec (sendMcpMessage tool (tool_call "delete_entry" entry_id) None) w)).
  { unfold handleDelete_viewer_send, exec. js_run. cbn. by rewrite send_hosted. }
  split; [done|]. split; [by rewrite Hcall|].
  unfold settled, exec. rewrite Hcall. cbn [snd].
  rewrite (awaited_focus p _ (verdict None response error) 1 false).
  - unfold verdict. by destruct (truthy error).
  - rewrite (send_then_reply w tool _ None noise reply Hwf Hpar Hnoise Hm).
    by apply reply_outcome_fields.
Qed.

(** X7.  [handleEntryDeleted] marks exactly the entry it is given: an
    entry shows as deleted afterwards if it did before or if it is that
    entry.  Marking never unmarks, marking twice is marking once, and the
    order of two markings does not matter. *)
Theorem journal_marks_deleted entry_id other j :
  isDeleted other (handleEntryDeleted entry_id j) =
    isDeleted other j || bool_decide (other = entry_id) ∧
  handleEntryDeleted entry_id (handleEntryDeleted entry_id j) =
    handleEntryDeleted entry_id j ∧
  handleEntryDeleted entry_id (handleEntryDeleted other j) =
    handleEntryDeleted other (handleEntryDeleted entry_id j) ∧
  isDeleted entry_id (run_callbacks entry_id [OnDeleted] j) = true.
Proof.
  unfold isDeleted, handleEntryDeleted, run_callbacks. cbn. repeat split.
  - apply eq_true_iff_eq.
    rewrite orb_true_iff, !bool_decide_eq_true. set_solver.
  - f_equal. set_solver.
  - f_equal. set_solver.
  - apply bool_decide_eq_true. set_solver.
Qed.

(** * Beyond the claims: the agent and its tools *)

Section AgentFacts.

Lemma get_prop_opt_normal v k : ∃ x, get_prop_opt v k = Normal x.
Proof. destruct v; by eexists. Qed.

Lemma entry_uri_inj (a b : Z) :
  "epicme://entries/" +:+ pretty a = "epicme://entries/" +:+ pretty b → a = b.
Proof. cbn. intros [= H]. by apply (inj pretty). Qed.

Lemma tag_uri_inj (a b : Z) :
  "epicme://tags/" +:+ pretty a = "epicme://tags/" +:+ pretty b → a = b.
Proof. cbn. intros [= H]. by apply (inj pretty). Qed.

End AgentFacts.


(** X9.  [elicitConfirmation] always answers [true] and never sends an
    elicitation request, whatever capabilities the client announced and
    whatever it would have answered: the test on the constant
    [cloudflareSupportsElicitation] returns before the request. *)
Theorem confirmation_always_granted {DB} (P : platform DB) message st :
  elicitConfirmation P message st = (Normal true, st).
Proof.
  unfold elicitConfirmation.
  destruct (get_prop_opt_normal (getClientCapabilities P) "elicitation") as [x ->].
  by rewrite orb_true_r.
Qed.

(** X10.  The tool ['delete_entry'].  For an id the database has no entry
    for, it throws the invariant error naming the id and leaves the
    database as it is.  For an existing entry it always deletes: the
    client is never asked, the branch "rejected by the user" is never
    taken, the result reports [success: true] with the entry as it was,
    and its content has three items, the second being the entry's
    resource link. *)
Theorem delete_entry_always_deletes {DB} (P : platform DB) id st :
  match getEntry (client P) (agent_db st) id with
  | None =>
      delete_entry P id st =
        (Throw (InvariantError
                  ("Entry with ID " +:+ dquote +:+ pretty id +:+ dquote +:+ " not found")),
         st)
  | Some existing =>
      ∃ text,
        delete_entry P id st =
          (Normal
             (VObj [("structuredContent",
                     VObj [("success", VBool true); ("entry", entry_value existing)]);
                    ("content",
                     VArr [createText P (VStr text);
                           createEntryResourceLink existing;
                           createText P
                             (VObj [("success", VBool true);
                                    ("entry", entry_value existing)])])]),
           AgentState (deleteEntry (client P) (agent_db st) id) (elicited st))
  end.
Proof.
  unfold delete_entry. destruct (getEntry (client P) (agent_db st) id) as [e|];
    [|done].
  unfold elicitConfirmation.
  destruct (get_prop_opt_normal (getClientCapabilities P) "elicitation") as [x ->].
  rewrite orb_true_r. cbn. by eexists.
Qed.

(** X11.  Resource links name their object: two entry links have the same
    [uri] exactly when the entries have the same id, likewise for tags,
    and the [uri] of an entry link is never the [uri] of a tag link. *)
Theorem resource_links_distinct (e1 e2 : entry) (t1 t2 : tag) :
  (get_prop (createEntryResourceLink e1) "uri" =
   get_prop (createEntryResourceLink e2) "uri" ↔ entry_id e1 = entry_id e2) ∧
  (get_prop (createTagResourceLink t1) "uri" =
   get_prop (createTagResourceLink t2) "uri" ↔ tag_id t1 = tag_id t2) ∧
  get_prop (createEntryResourceLink e1) "uri" ≠
  get_prop (createTagResourceLink t1) "uri".
Proof.
  unfold createEntryResourceLink, createTagResourceLink. cbn -[String.append pretty].
  repeat split.
  - intros H. apply entry_uri_inj. congruence.
  - by intros ->.
  - intros H. apply tag_uri_inj. congruence.
  - by intros ->.
  - intros H. cbn in H. discriminate H.
Qed.

(** X12.  The tool ['list_entries'] leaves the database alone and answers
    with the entries in the order the database gave them: its content is
    the text "Found n entries.", then one resource link per entry in that
    order, then the structured content as text; so n + 2 items, and two
    for an empty journal. *)
Theorem list_entries_content {DB} (P : platform DB) st :
  let entries := getEntries (client P) (agent_db st) in
  let structuredContent := VObj [("entries", VArr (entry_value <$> entries))] in
  ∃ content,
    list_entries P st =
      (Normal (VObj [("structuredContent", structuredContent);
                     ("content", VArr content)]), st) ∧
    length content = length entries + 2 ∧
    content !! 0 =
      Some (createText P (VStr ("Found " +:+ pretty (length entries) +:+ " entries."))) ∧
    (∀ i e, entries !! i = Some e →
            content !! (S i) = Some (createEntryResourceLink e)) ∧
    content !! (S (length entries)) = Some (createText P structuredContent).
Proof.
  intros entries structuredContent. unfold list_entries. fold entries.
  eexists. split; [reflexivity|].
  set (links := createEntryResourceLink <$> entries).
  assert (Hlen : length links = length entries) by apply length_fmap.
  repeat split.
  - cbn. rewrite length_app, Hlen. cbn. lia.
  - intros i e Hi.
    change ((links ++ [createText P structuredContent]) !! i =
            Some (createEntryResourceLink e)).
    rewrite lookup_app_l.
    + unfold links. by rewrite list_lookup_fmap, Hi.
    + rewrite Hlen. by apply lookup_lt_Some in Hi.
  - change ((links ++ [createText P structuredContent]) !! length entries =
            Some (createText P structuredContent)).
    rewrite lookup_app_r by (by rewrite Hlen).
    by rewrite Hlen, Nat.sub_diag.
Qed.

(** * Beyond the claims: events and the listener list *)

Section Addressees.

Lemma filter_all {A} (P : A → Prop) `{∀ x, Decision (P x)} (l : list A) :
  (∀ x, x ∈ l → P x) → filter P l = l.
Proof.
  induction l as [|a l IH]; [done|]. intros Hall. rewrite filter_cons.
  destruct (decide (P a)) as [|Hn].
  - f_equal. apply IH. intros x Hx. apply Hall. by right.
  - destruct Hn. apply Hall. by left.
Qed.

Lemma filter_ext_elem {A} (P Q : A → Prop) `{∀ x, Decision (P x)}
    `{∀ x, Decision (Q x)} (l : list A) :
  (∀ x, x ∈ l → P x ↔ Q x) → filter P l = filter Q l.
Proof.
  induction l as [|a l IH]; [done|]. intros Hall. rewrite !filter_cons.
  assert (P a ↔ Q a) as Ha by (apply Hall; by left).
  rewrite IH by (intros x Hx; apply Hall; by right).
  destruct (decide (P a)), (decide (Q a)); tauto || done.
Qed.

Lemma ids_determine (l : list handler) x y :
  NoDup (handler_id <$> l) → x ∈ l → y ∈ l → handler_id x = handler_id y → x = y.
Proof.
  induction l as [|a l IH]; [by intros _ ?%elem_of_nil|].
  rewrite fmap_cons. intros [Ha Hl]%NoDup_cons Hx Hy Hid.
  apply elem_of_cons in Hx as [->|Hx], Hy as [->|Hy]; try done.
  - destruct Ha. rewrite Hid. by apply list_elem_of_fmap_2.
  - destruct Ha. rewrite <- Hid. by apply list_elem_of_fmap_2.
  - by apply IH.
Qed.

(** What running a closure does to the listener list. *)
Lemma call_handler_listeners h d w :
  listeners (exec (call_handler h d) w) =
  if handles h d then filter (λ x, handler_id x ≠ handler_id h) (listeners w)
  else listeners w.
Proof.
  unfold exec. destruct h as [p mid schema|p schema]; cbn [handles handler_id].
  - destruct (is_response_for mid d) eqn:Hm.
    + rewrite (send_match p mid schema d Hm w).
      by destruct (reply_fields d "response") as [[]|].
    + destruct (send_nonmatch p mid schema d Hm) as (r & Hr & ->).
      by destruct Hr as [->|[e ->]].
  - destruct (is_render_data d) eqn:Hm.
    + rewrite (wait_match p schema d Hm w).
      by destruct (reply_fields d "renderData") as [[]|].
    + by rewrite (wait_nonmatch p schema d Hm w).
Qed.

Lemma invoke_listener_listeners d w h :
  listeners (invoke_listener d w h) =
  if registered (handler_id h) w && handles h d
  then filter (λ x, handler_id x ≠ handler_id h) (listeners w)
  else listeners w.
Proof.
  pose proof (call_handler_listeners h d w) as Hc. unfold exec in Hc.
  unfold invoke_listener. destruct (registered (handler_id h) w); [|done].
  destruct (call_handler h d w) as [[[]|e] w']; cbn in *; by rewrite Hc.
Qed.

Lemma registered_listeners q w w' :
  listeners w' = listeners w → registered q w' = registered q w.
Proof. unfold registered. by intros ->. Qed.

Lemma foldl_invoke_listeners d hs : ∀ w,
  NoDup (handler_id <$> hs) →
  (∀ h, h ∈ hs → registered (handler_id h) w = true) →
  listeners (foldl (invoke_listener d) w hs) =
  filter (λ x, handler_id x ∉ addressed d hs) (listeners w).
Proof.
  induction hs as [|h hs IH]; intros w Hnd Hreg.
  - cbn. symmetry. apply filter_all. intros x _. unfold addressed. cbn.
    apply not_elem_of_nil.
  - rewrite fmap_cons in Hnd. apply NoDup_cons in Hnd as [Hh Hnd]. cbn [foldl].
    pose proof (invoke_listener_listeners d w h) as Hl.
    rewrite (Hreg h) in Hl by by left. cbn [andb] in Hl.
    assert (Hregs : ∀ h', h' ∈ hs →
              registered (handler_id h') (invoke_listener d w h) = true).
    { intros h' Hin'. assert (handler_id h' ≠ handler_id h) as Hne.
      { intros Heq. apply Hh. rewrite <- Heq. by apply list_elem_of_fmap_2. }
      destruct (handles h d).
      - rewrite (registered_listeners (handler_id h') (detach (handler_id h) w)
                   (invoke_listener d w h)) by done.
        rewrite registered_detach_ne by done. apply Hreg. by right.
      - rewrite (registered_listeners (handler_id h') w (invoke_listener d w h))
          by done.
        apply Hreg. by right. }
    rewrite IH by done. rewrite Hl. unfold addressed. rewrite filter_cons.
    destruct (handles h d) eqn:Hd.
    + rewrite decide_True by done. rewrite fmap_cons, list_filter_filter.
      apply list_filter_iff. intros x. rewrite not_elem_of_cons. tauto.
    + by rewrite decide_False by done.
Qed.

End Addressees.

(** X13.  One event removes exactly the listeners it is addressed to: in a
    well-formed window, after a ['message'] event the listener list is the
    old one, in the old order, without the Sender closures whose
    [messageId] the event answers as a reply and without the Waiter
    closures when the event is a render-data push.  No other listener is
    removed, none is added, and nothing is posted or logged. *)
Theorem dispatch_removes_addressees d w :
  wf w →
  listeners (dispatch d w) = filter (λ h, handles h d = false) (listeners w) ∧
  outside (dispatch d w) = outside w.
Proof.
  intros [Hnd Hb]. split; [|apply dispatch_outside]. unfold dispatch.
  rewrite foldl_invoke_listeners; [|done|].
  - apply filter_ext_elem. intros x Hx. unfold addressed.
    rewrite list_elem_of_fmap. split.
    + intros Hno. destruct (handles x d) eqn:Hd; [|done].
      destruct Hno. exists x. split; [done|]. by apply list_elem_of_filter.
    + intros Hd (y & Hid & [Hy Hin]%list_elem_of_filter).
      rewrite (ids_determine (listeners w) x y Hnd Hx Hin Hid) in Hd. congruence.
  - intros h Hin. apply registered_spec. eauto.
Qed.

Section MoreEvents.

(** A later call of the Waiter does not disturb a pending call. *)
Lemma awaiting_wait h schema w :
  awaiting h w → parent w ≠ ParentNull →
  awaiting h (exec (waitForRenderData schema) w).
Proof.
  intros [Hwf Hin Hp] Hpar. unfold exec. rewrite wait_hosted by done. cbn.
  split; cbn.
  - by apply wf_install.
  - apply elem_of_app. by left.
  - rewrite lookup_insert_ne; [done|].
    destruct Hwf as [_ Hb]. specialize (Hb h Hin). lia.
Qed.

Lemma nullish_event_send p messageId schema d w :
  nullish d = true →
  ∃ e, get_prop d "type" = Throw e ∧
       call_handler (HSender p messageId schema) d w = (Throw e, w).
Proof. destruct d; try done; intros _; by eexists. Qed.

Lemma nullish_event_wait p schema d w :
  nullish d = true → call_handler (HWaiter p schema) d w = (Normal (), w).
Proof. by destruct d. Qed.

Lemma foldl_invoke_nullish d e hs : ∀ w,
  nullish d = true → get_prop d "type" = Throw e →
  (∀ h, h ∈ hs → registered (handler_id h) w = true) →
  foldl (invoke_listener d) w hs =
  Window (parent w) (posted w) (listeners w) (promises w) (next_promise w)
         (console w)
         (uncaught w ++ replicate (length (filter (λ h, is_sender h = true) hs)) e)
         (uuid_source w) (uuid_calls w).
Proof.
  induction hs as [|h hs IH]; intros w Hd He Hreg.
  - cbn. rewrite app_nil_r. by destruct w.
  - cbn [foldl]. unfold invoke_listener at 2. rewrite (Hreg h) by by left.
    destruct h as [p mid schema|p schema].
    + destruct (nullish_event_send p mid schema d w Hd) as (e' & He' & ->).
      assert (e' = e) as -> by congruence.
      rewrite IH; [|done|done|].
      * rewrite filter_cons. cbn. by rewrite <- app_assoc.
      * intros h' Hin'. rewrite <- (Hreg h') by by right. done.
    + rewrite (nullish_event_wait p schema d w Hd).
      rewrite IH; [|done|done|intros h' Hin'; apply Hreg; by right].
      by rewrite filter_cons.
Qed.

Lemma reply_fields_nullish reply payload key :
  get_prop reply "payload" = Normal payload → nullish payload = true →
  ∃ e, reply_fields reply key = Throw e.
Proof.
  unfold reply_fields. intros -> Hn. destruct payload; try done; by eexists.
Qed.

End MoreEvents.

(** X14.  One render-data push settles every Waiter that is pending when
    it arrives: in any well-formed window, each pending call of
    [waitForRenderData] gets the outcome of that one push under its own
    schema, and after the push no Waiter listener is left installed.  A
    Waiter that starts after the push, in a window that has a parent, has
    not seen it and is pending. *)
Theorem one_push_settles_every_waiter w push p schema late_schema :
  awaiting (HWaiter p schema) w →
  is_render_data push = true →
  focus p (dispatch push w) = reply_outcome schema "renderData" push ∧
  (∀ h, h ∈ listeners (dispatch push w) → is_sender h = true) ∧
  (parent w ≠ ParentNull →
   focus (next_promise w) (exec (waitForRenderData late_schema) (dispatch push w)) =
     (Some (Promise Pending 0), true)).
Proof.
  intros Haw Hpush. pose proof (awaiting_wf _ _ Haw) as Hwf.
  assert (Hout : outside (dispatch push w) = outside w) by apply dispatch_outside.
  assert (Hp : parent (dispatch push w) = parent w ∧
               next_promise (dispatch push w) = next_promise w).
  { unfold outside in Hout. injection Hout as -> _ _ -> _. done. }
  destruct Hp as [Hparp Hnextp].
  split; [by apply awaiting_wait_push|]. split.
  - intros h Hin. destruct h as [q mid s|q s]; [done|exfalso].
    pose proof (proj1 (shrinks_dispatch push w) _ Hin) as Hin0.
    pose proof (dispatch_focus_present push w (HWaiter q s) _ Hwf Hin0
                  (wait_match q s push Hpush)) as Hf.
    assert (registered q (dispatch push w) = true) as Hreg
      by (apply registered_spec; by exists (HWaiter q s)).
    cbn [handler_id] in Hf. rewrite react_focus in Hf. unfold focus in Hf.
    rewrite Hreg in Hf.
    by destruct (reply_fields push "renderData") as [[]|].
  - intros Hpar. rewrite <- Hnextp. apply (awaiting_focus (HWaiter _ late_schema)).
    apply wait_awaiting; [by apply dispatch_wf|by rewrite Hparp].
Qed.

(** X15.  An event whose [data] is [undefined] or [null] makes every
    Sender closure throw on [event.data.type], while every Waiter closure,
    which reads [event.data?.type], returns quietly.  The event settles
    nothing and removes no listener; its only trace is one reported
    exception per installed Sender listener. *)
Theorem malformed_event_faults_senders d w :
  wf w → nullish d = true →
  ∃ e, get_prop d "type" = Throw e ∧
    uncaught (dispatch d w) =
      uncaught w ++ replicate (length (filter (λ h, is_sender h = true) (listeners w))) e ∧
    listeners (dispatch d w) = listeners w ∧
    promises (dispatch d w) = promises w ∧
    outside (dispatch d w) = outside w.
Proof.
  intros Hwf Hd.
  destruct (nullish_event_send 0 "" None d w Hd) as (e & He & _).
  exists e. split; [done|]. unfold dispatch.
  rewrite (foldl_invoke_nullish d e); [done|done|done|].
  intros h Hin. apply registered_spec. eauto.
Qed.

(** X16.  A reply that carries the call's [messageId] but no payload (the
    [payload] is missing or [null]) strands the call: the listener is
    removed first, destructuring the payload then throws, and the promise
    is left pending with nothing installed that could still settle it;
    no later event changes that. *)
Theorem reply_without_payload_strands_call w type payload schema noise reply
    reply_payload later :
  wf w → parent w = ParentOther →
  let messageId := uuid_source w (uuid_calls w) in
  let stranded :=
    deliver (noise ++ [reply]) (exec (sendMcpMessage type payload schema) w) in
  Forall (λ d, is_response_for messageId d = false) noise →
  is_response_for messageId reply = true →
  get_prop reply "payload" = Normal reply_payload →
  nullish reply_payload = true →
  focus (next_promise w) stranded = (Some (Promise Pending 0), false) ∧
  focus (next_promise w) (deliver later stranded) = (Some (Promise Pending 0), false).
Proof.
  intros Hwf Hpar messageId stranded Hnoise Hm Hpl Hnull.
  destruct (reply_fields_nullish reply reply_payload "response" Hpl Hnull) as [e He].
  assert (Hf : focus (next_promise w) stranded = (Some (Promise Pending 0), false)).
  { unfold stranded. rewrite send_then_reply by done.
    unfold reply_outcome. by rewrite He. }
  split; [done|]. rewrite deliver_focus_absent; [done|].
  change (registered (next_promise w) stranded) with (focus (next_promise w) stranded).2.
  by rewrite Hf.
Qed.

(** * Beyond the claims: what every reachable window satisfies *)

Section Consistency.

Lemma consistent_fresh par src : consistent (fresh_window par src).
Proof.
  split.
  - apply wf_fresh_window.
  - intros h Hin. inversion Hin.
  - intros q pr Hq. cbn in Hq. by rewrite lookup_empty in Hq.
Qed.

Lemma consistent_same w w' :
  consistent w → listeners w' = listeners w → promises w' = promises w →
  (next_promise w ≤ next_promise w')%nat → consistent w'.
Proof.
  intros [Hwf Hl Hp] El Ep Hn. split.
  - by apply (wf_same_listeners w).
  - rewrite El, Ep. apply Hl.
  - rewrite Ep. apply Hp.
Qed.

(** A new promise with its listener. *)
Lemma consistent_install h w w' :
  consistent w → handler_id h = next_promise w →
  listeners w' = listeners w ++ [h] →
  promises w' = <[next_promise w := Promise Pending 0]> (promises w) →
  next_promise w' = S (next_promise w) →
  consistent w'.
Proof.
  intros [Hwf Hl Hp] Hid El Ep En. split.
  - destruct (wf_install h (posted w) w Hwf Hid) as [_ [Hnd Hb]]. cbn in Hnd, Hb.
    split; rewrite El; [done|]. rewrite En. apply Hb.
  - rewrite El, Ep. intros h' [Hin|[->|[]%elem_of_nil]%elem_of_cons]%elem_of_app.
    + rewrite lookup_insert_ne; [by apply Hl|].
      destruct Hwf as [_ Hb]. specialize (Hb h' Hin). lia.
    + rewrite Hid. apply lookup_insert_eq.
  - rewrite Ep. intros q pr. destruct (decide (q = next_promise w)) as [->|Hne].
    + rewrite lookup_insert_eq. by intros [= <-].
    + rewrite lookup_insert_ne by done. apply Hp.
Qed.

(** A new promise whose executor ended by rejecting it. *)
Lemma consistent_rejected e w w' :
  consistent w →
  listeners w' = listeners w →
  promises w' = alter (settle (Rejected e)) (next_promise w)
                      (<[next_promise w := Promise Pending 0]> (promises w)) →
  next_promise w' = S (next_promise w) →
  consistent w'.
Proof.
  intros [Hwf Hl Hp] El Ep En. split.
  - apply (wf_same_listeners w); [done|done|lia].
  - rewrite El, Ep. intros h' Hin.
    assert (handler_id h' ≠ next_promise w) as Hne.
    { destruct Hwf as [_ Hb]. specialize (Hb h' Hin). lia. }
    rewrite lookup_alter_ne, lookup_insert_ne by done. by apply Hl.
  - rewrite Ep. intros q pr. destruct (decide (q = next_promise w)) as [->|Hne].
    + rewrite lookup_alter_eq, lookup_insert_eq. by intros [= <-].
    + rewrite lookup_alter_ne, lookup_insert_ne by done. apply Hp.
Qed.

Lemma init_keeps_promises rootRef_current w :
  promises (exec (useMcpUiInit rootRef_current) w) = promises w.
Proof.
  unfold exec, useMcpUiInit, window_parent, postMessage. js_run. cbn.
  destruct (parent w) eqn:Hpar; [done| |];
    (destruct rootRef_current as [root|]; cbn; [rewrite Hpar|]; done).
Qed.

Lemma init_document_keeps_promises documentElement w :
  promises (exec (useMcpUiInit_document documentElement) w) = promises w.
Proof.
  unfold exec, useMcpUiInit_document, window_parent, postMessage. js_run. cbn.
  destruct (parent w) eqn:Hpar; [done| |]; cbn; by rewrite Hpar.
Qed.

(** A closure that settles, settles: its reaction never carries [Pending]. *)
Lemma handler_reaction_settled h d :
  ∃ r, (∀ w, call_handler h d w = react (handler_id h) r w) ∧
       r ≠ Settles Pending.
Proof.
  destruct h as [p mid schema|p schema]; cbn [handler_id].
  - destruct (is_response_for mid d) eqn:Hm.
    + eexists. split; [apply (send_match p mid schema d Hm)|].
      destruct (reply_fields d "response") as [[response error]|]; [|done].
      unfold verdict, settlement_of. destruct (truthy error); [done|].
      destruct schema as [s|]; [|done]. by destruct (safeParse s response).
    + destruct (send_nonmatch p mid schema d Hm) as (r & Hr & Hcall).
      exists r. split; [done|]. by destruct Hr as [->|[e ->]].
  - destruct (is_render_data d) eqn:Hm.
    + eexists. split; [apply (wait_match p schema d Hm)|].
      destruct (reply_fields d "renderData") as [[renderData error]|]; [|done].
      unfold verdict, settlement_of. destruct (truthy error); [done|].
      destruct schema as [s|]; [|done]. by destruct (safeParse s renderData).
    + exists Ignores. split; [apply (wait_nonmatch p schema d Hm)|done].
Qed.

Lemma consistent_dispatch d w : consistent w → consistent (dispatch d w).
Proof.
  intros [Hwf Hl Hp]. split.
  - by apply dispatch_wf.
  - intros h Hin. pose proof (proj1 (shrinks_dispatch d w) h Hin) as Hin0.
    destruct (handler_reaction h d) as [r Hr].
    pose proof (dispatch_focus_present d w h r Hwf Hin0 Hr) as Hf.
    assert (registered (handler_id h) (dispatch d w) = true) as Hreg
      by (apply registered_spec; eauto).
    rewrite react_focus in Hf. unfold focus in Hf. rewrite Hreg in Hf.
    destruct r; try done; injection Hf as -> _; by apply Hl.
  - intros q pr Hq. destruct (registered q w) eqn:Hreg.
    + apply registered_spec in Hreg as (h & Hin & <-).
      destruct (handler_reaction_settled h d) as (r & Hr & Hs).
      pose proof (dispatch_focus_present d w h r Hwf Hin Hr) as Hf.
      rewrite react_focus in Hf. unfold focus in Hf.
      destruct r as [|e|e|s]; injection Hf as Hprom _; rewrite Hprom in Hq;
        try by apply (Hp _ _ Hq).
      rewrite (Hl h Hin) in Hq. injection Hq as <-. by destruct s.
    + pose proof (dispatch_focus_absent d w q Hreg) as Hf.
      unfold focus in Hf. injection Hf as Hprom _. rewrite Hprom in Hq.
      by apply (Hp q).
Qed.

Lemma consistent_step w w' : consistent w → step w w' → consistent w'.
Proof.
  intros Hc Hstep. pose proof (consistent_wf w Hc) as Hwf. destruct Hstep.
  - unfold exec. destruct (parent w) eqn:Hpar.
    3:{ rewrite send_hosted by done.
        by apply (consistent_install
                    (HSender (next_promise w) (uuid_source w (uuid_calls w)) schema) w). }
    all: rewrite send_unhosted by congruence;
      by apply (consistent_rejected (VError "Error" "No parent frame available") w).
  - unfold exec. destruct (parent w) eqn:Hpar.
    2,3: rewrite wait_hosted by congruence;
      by apply (consistent_install (HWaiter (next_promise w) schema) w).
    rewrite wait_detached by done.
    by apply (consistent_rejected
                (TypeError "Cannot read properties of null, reading postMessage") w).
  - destruct (init_keeps rootRef_current w) as [Hl Hn].
    apply (consistent_same w); [done|done|apply init_keeps_promises|lia].
  - destruct (init_document_keeps documentElement w) as [Hl Hn].
    apply (consistent_same w); [done|done|apply init_document_keeps_promises|lia].
  - by apply consistent_dispatch.
Qed.

End Consistency.

(** X17.  In every window the program can reach (by calls of the Sender,
    of the Waiter and of the lifecycle hook, and by inbound events of any
    content, in any order), every installed listener belongs to a call
    that is still pending, so a settled call never leaves its listener
    behind, and no promise has had [resolve] or [reject] called more than
    once: a pending promise never, a settled promise exactly once. *)
Theorem reachable_consistent w : reachable w → consistent w.
Proof.
  induction 1 as [par src|w w' _ IH Hstep]; [apply consistent_fresh|].
  by apply (consistent_step w).
Qed.

(** * The further properties at concrete inputs *)

(** The share link of the journal viewer, sent both ways. *)
Lemma link_sender_agrees_witness :
  sendLinkMcpMessage "https://x.com/intent/post" host_window =
  sendMcpMessage link (link_payload "https://x.com/intent/post") None host_window.
Proof.
  exact (proj2 (link_sender_agrees "https://x.com/intent/post" host_window
                  0 "7f0c-a" VNull host_window eq_refl)).
Defined.

(** A top-level window: the link request comes back and is ignored. *)
Lemma link_sender_unguarded_witness :
  let w := fresh_window ParentSelf uuids in
  let request := request_envelope link "7f0c-a" (link_payload "https://x.com") in
  let waiting := exec (sendLinkMcpMessage "https://x.com") w in
  posted waiting = [request] ∧
  focus 0 (dispatch request waiting) = (Some (Promise Pending 0), true).
Proof.
  intros w request waiting.
  destruct (link_sender_unguarded "https://x.com" w (wf_fresh_window ParentSelf uuids))
    as (Hposted & _ & _ & Hback).
  exact (conj Hposted Hback).
Defined.

(** The host answers the link request with an error. *)
Lemma link_sender_settles_witness :
  let reply := response_envelope "7f0c-a" (VObj [("error", VStr "blocked")]) in
  focus 0 (deliver ([VNull] ++ [reply])
             (exec (sendLinkMcpMessage "https://x.com") host_window)) =
  (Some (Promise (Rejected (VStr "blocked")) 1), false).
Proof.
  intros reply.
  apply (link_sender_settles "https://x.com" host_window [VNull] reply
           VUndefined (VStr "blocked")).
  - apply wf_fresh_window.
  - discriminate.
  - repeat constructor.
  - reflexivity.
  - reflexivity.
Defined.

(** The host reports the deletion, with a field the schema does not know. *)
Lemma delete_button_outcome_witness :
  let response :=
    VObj [("structuredContent", VObj [("success", VBool true); ("entry", VNull)]);
          ("content", VArr [])] in
  let reply := response_envelope "7f0c-a" (VObj [("response", response)]) in
  handleDelete_resume
    (awaited 0 (deliver ([] ++ [reply])
                  (exec (handleDelete_send deleteEntrySchema 42) host_window))) =
  [OnDeleted].
Proof.
  intros response reply.
  destruct (delete_button_outcome host_window 42 [] reply response VUndefined
              (wf_fresh_window ParentOther uuids) eq_refl
              (Forall_nil_2 _) eq_refl eq_refl) as (_ & _ & _ & Hdeleted).
  apply Hdeleted. split; [reflexivity|].
  exists [("structuredContent", VObj [("success", VBool true); ("entry", VNull)]);
          ("content", VArr [])],
         [("success", VBool true); ("entry", VNull)].
  repeat split.
Defined.

(** The delete button in a top-level window. *)
Lemma delete_button_without_host_witness :
  let w := fresh_window ParentSelf uuids in
  let reply := response_envelope "7f0c-a" (VObj [("response", VNull)]) in
  let after := deliver [reply] (exec (handleDelete_send deleteEntrySchema 42) w) in
  handleDelete_resume (awaited 0 after) =
    [ShowBoundary (VError "Error" "No parent frame available")] ∧
  posted after = [].
Proof.
  intros w reply after.
  apply (delete_button_without_host deleteEntrySchema w 42 [reply]).
  - apply wf_fresh_window.
  - discriminate.
Defined.

(** The host reports that the deletion failed; the entry viewer shows the
    entry as deleted all the same. *)
Lemma entry_viewer_delete_witness :
  let response := VObj [("structuredContent", VObj [("success", VBool false)])] in
  let reply := response_envelope "7f0c-a" (VObj [("response", response)]) in
  handleDelete_viewer_send false 42 host_window = (Normal None, host_window) ∧
  (handleDelete_viewer_send true 42 host_window).1 = Normal (Some 0) ∧
  handleDelete_viewer_resume
    (awaited 0 (deliver ([] ++ [reply])
                  (exec (handleDelete_viewer_send true 42) host_window))) =
  [OnDeleted].
Proof.
  intros response reply.
  apply (entry_viewer_delete host_window 42 [] reply response VUndefined).
  - apply wf_fresh_window.
  - reflexivity.
  - constructor.
  - reflexivity.
  - reflexivity.
Defined.

(** A reply arrives while one call is pending. *)
Lemma dispatch_removes_addressees_witness :
  let w := exec (sendMcpMessage tool delete_entry_request None) host_window in
  let reply := response_envelope "7f0c-a" (VObj [("response", VNull)]) in
  listeners (dispatch reply w) = filter (λ h, handles h reply = false) (listeners w) ∧
  outside (dispatch reply w) = outside w.
Proof.
  intros w reply.
  apply (dispatch_removes_addressees reply w).
  apply (wf_step host_window); [apply wf_fresh_window|apply step_send].
Defined.

(** Two loaders wait; one push. *)
Lemma one_push_settles_every_waiter_witness :
  let push := render_data_envelope (VObj [("renderData", VStr "entry")]) in
  let w2 := exec (waitForRenderData None)
                 (exec (waitForRenderData (Some z_string)) host_window) in
  focus 0 (dispatch push w2) = (Some (Promise (Resolved (VStr "entry")) 1), false) ∧
  focus 1 (dispatch push w2) = (Some (Promise (Resolved (VStr "entry")) 1), false) ∧
  focus 2 (exec (waitForRenderData None) (dispatch push w2)) =
    (Some (Promise Pending 0), true).
Proof.
  intros push w2.
  set (w1 := exec (waitForRenderData (Some z_string)) host_window).
  assert (HA1 : awaiting (HWaiter 0 (Some z_string)) w1).
  { apply (wait_awaiting (Some z_string) host_window).
    - apply wf_fresh_window.
    - discriminate. }
  assert (HA : awaiting (HWaiter 0 (Some z_string)) w2).
  { apply awaiting_wait; [exact HA1|discriminate]. }
  assert (HB : awaiting (HWaiter 1 None) w2).
  { apply (wait_awaiting None w1); [apply HA1|discriminate]. }
  destruct (one_push_settles_every_waiter w2 push 0 (Some z_string) None HA
              eq_refl) as (HfA & _ & Hlate).
  destruct (one_push_settles_every_waiter w2 push 1 None None HB eq_refl)
    as (HfB & _ & _).
  exact (conj HfA (conj HfB (Hlate ltac:(discriminate)))).
Defined.

(** A [null] event while one Sender call is pending. *)
Lemma malformed_event_faults_senders_witness :
  let w := exec (sendMcpMessage tool delete_entry_request None) host_window in
  ∃ e, get_prop VNull "type" = Throw e ∧
    uncaught (dispatch VNull w) =
      uncaught w ++ replicate (length (filter (λ h, is_sender h = true) (listeners w))) e ∧
    listeners (dispatch VNull w) = listeners w ∧
    promises (dispatch VNull w) = promises w ∧
    outside (dispatch VNull w) = outside w.
Proof.
  intros w.
  apply (malformed_event_faults_senders VNull w).
  - apply (wf_step host_window); [apply wf_fresh_window|apply step_send].
  - reflexivity.
Defined.

(** A reply with the right id and no payload. *)
Lemma reply_without_payload_strands_call_witness :
  let reply :=
    VObj [("type", VStr "ui-message-response"); ("messageId", VStr "7f0c-a")] in
  let good := response_envelope "7f0c-a" (VObj [("response", VNull)]) in
  let stranded :=
    deliver ([] ++ [reply])
            (exec (sendMcpMessage tool delete_entry_request None) host_window) in
  focus 0 stranded = (Some (Promise Pending 0), false) ∧
  focus 0 (deliver [good] stranded) = (Some (Promise Pending 0), false).
Proof.
  intros reply good stranded.
  apply (reply_without_payload_strands_call host_window tool delete_entry_request
           None [] reply VUndefined [good]).
  - apply wf_fresh_window.
  - reflexivity.
  - constructor.
  - reflexivity.
  - reflexivity.
  - reflexivity.
Defined.

(** A call and its reply. *)
Lemma reachable_consistent_witness :
  consistent
    (dispatch (response_envelope "7f0c-a" (VObj [("response", VNull)]))
              (exec (sendMcpMessage tool delete_entry_request None) host_window)).
Proof.
  apply reachable_consistent.
  apply (reachable_step (exec (sendMcpMessage tool delete_entry_request None) host_window));
    [|apply step_event].
  apply (reachable_step host_window); [apply reachable_fresh|apply step_send].
Defined.
